(** * runelite-github-app: the plugin-hub triage bot (src/index.ts)

    A shallow embedding of the two webhook handlers of [src/index.ts] and of
    the helpers they close over ([setHasLabel], [readKV], [extractURL]).

    Conventions of the embedding.
    - A JavaScript string is a [string]; one [ascii] stands for one code unit,
      so the development covers the strings whose code units are below 256.
      On that alphabet the line terminators of the regular-expression [.] are
      line feed and carriage return.
    - An object used as a dictionary ([acc], [reviewStates]) is a
      [gmap string _]; a [Set] of strings is a [gset string].  The one key a
      plain object does not store, [__proto__], is left out where file
      contents supply the keys ([readKV]); [reviewStates] is keyed by GitHub
      logins, of which [__proto__] is none.
    - [undefined] read from a dictionary is [None]; it is rendered by
      [js_string] where the source interpolates it or hands it to a regex.
    - The remote side (labels and comments of the issue, and the write calls
      received) is the state of a small state-and-error monad: a failed call
      keeps the state reached so far, as nothing is rolled back. *)

From Stdlib Require Import Ascii.
From stdpp Require Import gmap strings list.

#[local] Arguments String.append !_ _ / : simpl nomatch.
#[local] Set Warnings "-clear-no-such-hyp".

(** ** Strings *)

Module Str.

Definition LF : ascii := "010"%char.
Definition CR : ascii := "013"%char.
Definition NL : string := String LF "".

(** [s.startsWith(p)] *)
Fixpoint startsWith (p s : string) : bool :=
  match p, s with
  | EmptyString, _ => true
  | String a p', String b s' => if Ascii.eqb a b then startsWith p' s' else false
  | String _ _, EmptyString => false
  end.

Fixpoint drop (n : nat) (s : string) : string :=
  match n, s with
  | O, _ => s
  | S n', String _ s' => drop n' s'
  | S _, EmptyString => EmptyString
  end.

(** [s.replace(pat, rep)] with a string pattern: the first occurrence only. *)
Fixpoint replace (pat rep s : string) : string :=
  if startsWith pat s then rep +:+ drop (String.length pat) s
  else match s with
       | EmptyString => EmptyString
       | String c s' => String c (replace pat rep s')
       end.

(** [s.split("\n")] *)
Fixpoint split (sep : ascii) (s : string) : list string :=
  match s with
  | EmptyString => [EmptyString]
  | String c s' =>
      match split sep s' with
      | l :: ls => if Ascii.eqb c sep then EmptyString :: l :: ls else String c l :: ls
      | [] => []
      end
  end.

(** [xs.join(sep)] *)
Fixpoint join (sep : string) (xs : list string) : string :=
  match xs with
  | [] => EmptyString
  | [x] => x
  | x :: xs' => x +:+ sep +:+ join sep xs'
  end.

(** [c] occurs in [s] *)
Fixpoint has (c : ascii) (s : string) : bool :=
  match s with
  | EmptyString => false
  | String a s' => if Ascii.eqb a c then true else has c s'
  end.

(** [p] occurs in [s] as a substring ([s.includes(p)]) *)
Fixpoint includes (p s : string) : bool :=
  if startsWith p s then true
  else match s with
       | EmptyString => false
       | String _ s' => includes p s'
       end.

(** The longest prefix of characters of a class, and what follows it. *)
Fixpoint take_while (p : ascii → bool) (s : string) : string :=
  match s with
  | EmptyString => EmptyString
  | String a s' => if p a then String a (take_while p s') else EmptyString
  end.

Fixpoint drop_while (p : ascii → bool) (s : string) : string :=
  match s with
  | EmptyString => EmptyString
  | String a s' => if p a then drop_while p s' else s
  end.

Fixpoint all (p : ascii → bool) (s : string) : bool :=
  match s with
  | EmptyString => true
  | String a s' => p a && all p s'
  end.

Definition endsWith (t s : string) : bool :=
  startsWith t (drop (String.length s - String.length t) s)
  && (String.length t <=? String.length s).

End Str.

(** ** Regular expressions

    The two regex literals of the source only quantify character classes, so
    a pattern is a sequence of nodes.  [exec] is the backtracking matcher of
    [RegExp.prototype.exec] without flags: the leftmost start position wins,
    quantifiers are greedy and give characters back one at a time, and the
    result is the list of captured groups (the array without its element 0). *)

Module Regex.

Inductive node :=
| Chr (c : ascii)                 (* a literal character *)
| Cls (p : ascii → bool)          (* one character of a class *)
| Star (p : ascii → bool)         (* class*, greedy *)
| Plus (p : ascii → bool)         (* class+, greedy *)
| Group (n : node).               (* ( ... ) around one node *)

Definition regex := list node.

(** [[^c]] *)
Definition neg (c : ascii) : ascii → bool := λ a, negb (Ascii.eqb a c).
(** [.] *)
Definition dot : ascii → bool :=
  λ a, negb (Ascii.eqb a Str.LF) && negb (Ascii.eqb a Str.CR).

Fixpoint lit (s : string) : regex :=
  match s with
  | EmptyString => []
  | String c s' => Chr c :: lit s'
  end.

Section Matcher.
Context {A : Type}.

(** Greedy repetition: [got] is what the quantifier has consumed so far;
    the longest run is tried first, then one character less, and so on. *)
Fixpoint star (p : ascii → bool) (k : string → string → option A)
    (got s : string) : option A :=
  match s with
  | String c s' =>
      if p c then
        match star p k (got +:+ String c "") s' with
        | Some r => Some r
        | None => k got s
        end
      else k got s
  | EmptyString => k got s
  end.
End Matcher.

Fixpoint mnode (n : node) (s : string) (caps : list string)
    (k : string → string → list string → option (list string))
    : option (list string) :=
  match n with
  | Chr c =>
      match s with
      | String a s' => if Ascii.eqb a c then k (String a "") s' caps else None
      | EmptyString => None
      end
  | Cls p =>
      match s with
      | String a s' => if p a then k (String a "") s' caps else None
      | EmptyString => None
      end
  | Star p => star p (λ got rest, k got rest caps) "" s
  | Plus p =>
      match s with
      | String a s' =>
          if p a then star p (λ got rest, k got rest caps) (String a "") s'
          else None
      | EmptyString => None
      end
  | Group n' => mnode n' s caps (λ got rest caps', k got rest (caps' ++ [got])%list)
  end.

Fixpoint mseq (r : regex) (s : string) (caps : list string)
    : option (list string) :=
  match r with
  | [] => Some caps
  | n :: r' => mnode n s caps (λ _ rest caps', mseq r' rest caps')
  end.

Fixpoint exec (r : regex) (s : string) : option (list string) :=
  match mseq r s [] with
  | Some caps => Some caps
  | None =>
      match s with
      | String _ s' => exec r s'
      | EmptyString => None
      end
  end.

End Regex.

(** ** Results, errors and the remote state *)

Inductive error :=
| Thrown (msg : string)       (* [throw `...`] in the source *)
| TypeError                   (* a method called on [undefined] *)
| HttpError (status : nat).   (* a request the remote side refused *)

Inductive result (A : Type) :=
| Ok (a : A)
| Err (e : error).
Arguments Ok {A} a.
Arguments Err {A} e.

(** [undefined] where a string is expected *)
Definition js_string (o : option string) : string := default "undefined" o.

(** ** readKV (src/index.ts 63-69) *)

(** The regex literal of line 64: a group of one or more non-[=]
    characters, [=], and a group of any number of [.] characters. *)
Definition kv_regex : Regex.regex :=
  [Regex.Group (Regex.Plus (Regex.neg "=")); Regex.Chr "=";
   Regex.Group (Regex.Star Regex.dot)].

(** One step of the [reduce]: [acc[val[1]] = val[2]].  [acc] is a plain
    object: the assignment to the key [__proto__] goes to the setter
    inherited from [Object.prototype], which ignores a string, so nothing is
    stored under that key; every other key becomes a property of [acc]. *)
Definition kv_step (acc : gmap string string) (val : list string)
    : gmap string string :=
  match val with
  | [k; v] => if bool_decide (k = "__proto__") then acc else <[k:=v]> acc
  | _ => acc
  end.

Definition readKV (data : string) : gmap string string :=
  foldl kv_step ∅
    (omap (λ i, Regex.exec kv_regex i) (Str.split Str.LF data)).

(** ** extractURL (src/index.ts 72-79) *)

Record RepoRef := { user : string; repo : string }.

(** [/https:\/\/github\.com\/([^/]+)\/([^.]+).git/] *)
Definition url_tail : Regex.regex :=
  [Regex.Group (Regex.Plus (Regex.neg "/")); Regex.Chr "/";
   Regex.Group (Regex.Plus (Regex.neg "."));
   Regex.Cls Regex.dot; Regex.Chr "g"; Regex.Chr "i"; Regex.Chr "t"].

Definition url_regex : Regex.regex :=
  (Regex.lit "https://github.com/" ++ url_tail)%list.

Definition url_error (cloneURL : string) : string :=
  "Plugin repository must be a github https clone url, not `" +:+ cloneURL +:+ "`".

Definition extractURL (cloneURL : string) : result RepoRef :=
  match Regex.exec url_regex cloneURL with
  | Some [u; r] => Ok {| user := u; repo := r |}
  | _ => Err (Thrown (url_error cloneURL))
  end.

(** ** The remote side *)

Module Comment.
Record t := { id : nat; body : string }.
End Comment.

Module File.
Record t := {
  filename : string;
  status : string;
  raw_url : string;
  previous_filename : option string   (* only present on a rename *)
}.
End File.

Module Review.
Record t := { login : string; state : string; body : string }.
End Review.

(** The write calls of the issue API, as the remote side receives them. *)
Inductive call :=
| AddLabels (labels : list string)
| RemoveLabel (name : string)
| UpdateComment (comment_id : nat) (body : string)
| CreateComment (body : string).

(** What persists on GitHub between two deliveries. *)
Record github := {
  issue_labels : gset string;
  issue_comments : list Comment.t;
  received : list call
}.

(** What one delivery reads and never writes: [context.repo()], the file
    list and the reviews of the pull request, the raw contents behind a URL,
    and the logins of the approver team; and, as the requests of the
    narrative run side by side, which failing request's answer comes in
    first ([first_rejection], see [all]). *)
Record delivery := {
  owner : string;
  repo_name : string;
  files : list File.t;
  request : string → result string;
  first_rejection : nat;
  reviews : list Review.t;
  members : list string
}.

(** State and error: the remote state survives a failure. *)
Definition M (A : Type) : Type := github → github * result A.

Definition ret {A} (a : A) : M A := λ g, (g, Ok a).
Definition bind {A B} (m : M A) (f : A → M B) : M B :=
  λ g, match m g with
       | (g', Ok a) => f a g'
       | (g', Err e) => (g', Err e)
       end.
Definition lift {A} (r : result A) : M A := λ g, (g, r).

Notation "x <- m ;; k" := (bind m (λ x, k))
  (at level 100, m at next level, right associativity).
Notation "m ;; k" := (bind m (λ _, k))
  (at level 100, right associativity).

Definition rbind {A B} (r : result A) (f : A → result B) : result B :=
  match r with
  | Ok a => f a
  | Err e => Err e
  end.
Notation "x <-- r ;; k" := (rbind r (λ x, k))
  (at level 100, r at next level, right associativity).

(** [Promise.all(xs.map(f))] for callbacks that only read.  [settled] runs
    every callback and keeps, in the order of [xs], the values of those that
    fulfil and the errors of those that reject.  When none rejects the
    result is the list of values; otherwise it is the rejection that comes
    first in time, which is the one of any of the failing callbacks,
    depending on when the answers arrive: [first] counts it among the
    failing callbacks, in the order of [xs], modulo their number. *)
Fixpoint settled {A B} (f : A → result B) (xs : list A) : list B * list error :=
  match xs with
  | [] => ([], [])
  | x :: xs' =>
      match f x with
      | Ok y => (y :: (settled f xs').1, (settled f xs').2)
      | Err e => ((settled f xs').1, e :: (settled f xs').2)
      end
  end.

Definition all {A B} (first : nat) (f : A → result B) (xs : list A)
    : result (list B) :=
  match (settled f xs).2 with
  | [] => Ok (settled f xs).1
  | e :: es => Err (default e ((e :: es) !! (first `mod` S (length es))))
  end.

Definition record (c : call) (g : github) : github :=
  {| issue_labels := issue_labels g;
     issue_comments := issue_comments g;
     received := received g ++ [c] |}.

(** Modelled from the spec: the issue label API of section 6 (list current
    labels; add one or more labels; remove a single named label, which fails
    on a label that is not present). *)
Definition listLabelsOnIssue : M (list string) :=
  λ g, (g, Ok (elements (issue_labels g))).

Definition addLabels (labels : list string) : M unit :=
  λ g, ({| issue_labels := issue_labels g ∪ list_to_set labels;
           issue_comments := issue_comments g;
           received := received g ++ [AddLabels labels] |}, Ok tt).

Definition removeLabel (name : string) : M unit :=
  λ g, if decide (name ∈ issue_labels g)
       then ({| issue_labels := issue_labels g ∖ {[name]};
                issue_comments := issue_comments g;
                received := received g ++ [RemoveLabel name] |}, Ok tt)
       else (record (RemoveLabel name) g, Err (HttpError 404)).

(** Modelled from the spec: the comment API of section 6 (list the comments
    of an issue with body and id; create a comment; update a comment by id).
    A created comment gets an id no listed comment has. *)
Definition listComments : M (list Comment.t) :=
  λ g, (g, Ok (issue_comments g)).

Definition fresh_id (cs : list Comment.t) : nat :=
  S (foldr max 0 (map Comment.id cs)).

Definition set_body (comment_id : nat) (body : string) (c : Comment.t)
    : Comment.t :=
  if decide (Comment.id c = comment_id)
  then {| Comment.id := comment_id; Comment.body := body |}
  else c.

Definition updateComment (comment_id : nat) (body : string) : M unit :=
  λ g, if decide (comment_id ∈ map Comment.id (issue_comments g))
       then ({| issue_labels := issue_labels g;
                issue_comments := map (set_body comment_id body) (issue_comments g);
                received := received g ++ [UpdateComment comment_id body] |}, Ok tt)
       else (record (UpdateComment comment_id body) g, Err (HttpError 404)).

Definition createComment (body : string) : M unit :=
  λ g, ({| issue_labels := issue_labels g;
           issue_comments :=
             issue_comments g ++
             [{| Comment.id := fresh_id (issue_comments g); Comment.body := body |}];
           received := received g ++ [CreateComment body] |}, Ok tt).

(** ** The constants of the source *)

Definition PLUGIN_CHANGE : string := "plugin change".
Definition PACKAGE_CHANGE : string := "package change".
Definition DEPENDENCY_CHANGE : string := "dependency change".
Definition READY_TO_MERGE : string := "ready to merge".

Definition marker : string := "<!-- rlphc -->".
Definition warning : string := "**Includes non-plugin changes**".

(** ** setHasLabel (src/index.ts 28-34)

    [labels] is the set built once from [listLabelsOnIssue] at the start of
    the handler; the closure never refreshes it. *)
Definition setHasLabel (labels : gset string) (condition : bool)
    (label : string) : M unit :=
  if condition && negb (bool_decide (label ∈ labels)) then
    addLabels [label]
  else if negb condition && bool_decide (label ∈ labels) then
    removeLabel label
  else ret tt.

(** ** The change classifier (src/index.ts 38-52) *)

Record partition := {
  pluginFiles : list File.t;
  dependencyFiles : list File.t;
  otherFiles : list File.t
}.

Definition classify_step (acc : partition) (f : File.t) : partition :=
  if Str.startsWith "plugins/" (File.filename f) then
    {| pluginFiles := pluginFiles acc ++ [f];
       dependencyFiles := dependencyFiles acc;
       otherFiles := otherFiles acc |}
  else if bool_decide (File.filename f = "package/verification-template/build.gradle")
       || bool_decide (File.filename f = "package/verification-template/gradle/verification-metadata.xml") then
    {| pluginFiles := pluginFiles acc;
       dependencyFiles := dependencyFiles acc ++ [f];
       otherFiles := otherFiles acc |}
  else
    {| pluginFiles := pluginFiles acc;
       dependencyFiles := dependencyFiles acc;
       otherFiles := otherFiles acc ++ [f] |}.

Definition classify (fs : list File.t) : partition :=
  foldl classify_step
    {| pluginFiles := []; dependencyFiles := []; otherFiles := [] |} fs.

(** ** The narrative of one plugin file (src/index.ts 58-97) *)

Definition master_url (d : delivery) (name : string) : string :=
  "https://github.com/" +:+ owner d +:+ "/" +:+ repo_name d +:+
  "/raw/master/plugins/" +:+ name.

Definition compare_link (oldPlugin newPlugin : gmap string string)
    (oldPluginURL : RepoRef) (new_user : string) : string :=
  "[" +:+ js_string (oldPlugin !! "commit") +:+ "..." +:+
  js_string (newPlugin !! "commit") +:+ "](https://github.com/" +:+
  user oldPluginURL +:+ "/" +:+ repo oldPluginURL +:+ "/compare/" +:+
  js_string (oldPlugin !! "commit") +:+ "..." +:+ new_user +:+ ":" +:+
  js_string (newPlugin !! "commit") +:+ ")".

Definition narrative (d : delivery) (file : File.t) : result string :=
  let pluginName := Str.replace "plugins/" "" (File.filename file) in
  if bool_decide (File.status file = "removed") then
    Ok ("Removed `" +:+ pluginName +:+ "` plugin")
  else
    res <-- request d (File.raw_url file) ;;
    let newPlugin := readKV res in
    ref <-- extractURL (js_string (newPlugin !! "repository")) ;;
    if bool_decide (File.status file = "modified") then
      res' <-- request d (master_url d pluginName) ;;
      let oldPlugin := readKV res' in
      oldPluginURL <-- extractURL (js_string (oldPlugin !! "repository")) ;;
      Ok ("`" +:+ pluginName +:+ "`: " +:+
          compare_link oldPlugin newPlugin oldPluginURL (user ref))
    else if bool_decide (File.status file = "added") then
      Ok ("New plugin `" +:+ pluginName +:+ "`: https://github.com/" +:+
          user ref +:+ "/" +:+ repo ref +:+ "/tree/" +:+
          js_string (newPlugin !! "commit"))
    else if bool_decide (File.status file = "renamed") then
      match File.previous_filename file with
      | None => Err TypeError
      | Some previous =>
          let oldPluginName := Str.replace "plugins/" "" previous in
          res' <-- request d (master_url d oldPluginName) ;;
          let oldPlugin := readKV res' in
          oldPluginURL <-- extractURL (js_string (oldPlugin !! "repository")) ;;
          Ok ("`" +:+ oldPluginName +:+ "` renamed to `" +:+ pluginName +:+
              "`; this will cause all current installs to become uninstalled." +:+
              Str.NL +:+
              compare_link oldPlugin newPlugin oldPluginURL (user ref))
      end
    else
      Ok ("What is a `" +:+ File.status file +:+ "`?").

(** ** The comment upsert (src/index.ts 103-111) *)

Definition is_sticky (c : Comment.t) : bool :=
  Str.startsWith marker (Comment.body c).

(** A string is truthy when it is not empty. *)
Definition truthy (s : string) : bool :=
  match s with
  | EmptyString => false
  | String _ _ => true
  end.

Definition upsert (difftext : string) : M unit :=
  let body := marker +:+ Str.NL +:+ difftext in
  comments <- listComments ;;
  match List.find is_sticky comments with
  | Some sticky => updateComment (Comment.id sticky) body
  | None => if truthy difftext then createComment body else ret tt
  end.

(** ** The pull_request handler (src/index.ts 22-112) *)

Definition nonempty {A} (l : list A) : bool := 0 <? length l.

Definition difftext_of (p : partition) (paragraphs : list string) : string :=
  let difftext := Str.join (Str.NL +:+ Str.NL) paragraphs in
  if nonempty (dependencyFiles p) || nonempty (otherFiles p)
  then warning +:+ Str.NL +:+ Str.NL +:+ difftext
  else difftext.

Definition on_pull_request (d : delivery) : M unit :=
  labelList <- listLabelsOnIssue ;;
  let labels : gset string := list_to_set labelList in
  setHasLabel labels false READY_TO_MERGE ;;
  let p := classify (files d) in
  setHasLabel labels (nonempty (pluginFiles p)) PLUGIN_CHANGE ;;
  setHasLabel labels (nonempty (dependencyFiles p)) DEPENDENCY_CHANGE ;;
  setHasLabel labels (nonempty (otherFiles p)) PACKAGE_CHANGE ;;
  paragraphs <- lift (all (first_rejection d) (narrative d) (pluginFiles p)) ;;
  upsert (difftext_of p paragraphs).

(** ** The pull_request_review.submitted handler (src/index.ts 114-149) *)

Definition approved (r : Review.t) : bool :=
  bool_decide (Review.state r = "APPROVED")
  || bool_decide (Review.body r = "lgtm").

(** The body of the [forEach] of lines 131-136. *)
Definition review_step (acc : gmap string bool) (r : Review.t)
    : gmap string bool :=
  if approved r
     || (negb (approved r) && negb (bool_decide (Review.state r = "COMMENTED")))
  then <[Review.login r := approved r]> acc
  else acc.

Definition reviewStates (members : gset string) (rs : list Review.t)
    : gmap string bool :=
  foldl review_step ∅
    (List.filter (λ r, bool_decide (Review.login r ∈ members)) rs).

(** [Object.keys(reviewStates).filter(k => !reviewStates[k])] *)
Definition unapproved (m : gmap string bool) : list string :=
  List.filter (λ k, negb (default false (m !! k))) (elements (dom m)).

Definition on_review_submitted (d : delivery) : M unit :=
  labelList <- listLabelsOnIssue ;;
  let labels : gset string := list_to_set labelList in
  if negb (bool_decide (PLUGIN_CHANGE ∈ labels)) then ret tt else
  if length (reviews d) <=? 0 then ret tt else
  let states := reviewStates (list_to_set (members d)) (reviews d) in
  if 0 <? length (unapproved states) then
    if bool_decide (READY_TO_MERGE ∈ labels) then removeLabel READY_TO_MERGE
    else ret tt
  else if negb (length (elements (dom states)) =? 0) then
    if negb (bool_decide (READY_TO_MERGE ∈ labels)) then addLabels [READY_TO_MERGE]
    else ret tt
  else ret tt.


(** ** Sample data *)

(** An issue that carries [plugin change] and has no comment. *)
Definition labelled_plugin : github :=
  {| issue_labels := {[PLUGIN_CHANGE]}; issue_comments := []; received := [] |}.

Definition mk_file (name st : string) : File.t :=
  {| File.filename := name; File.status := st;
     File.raw_url := "https://raw.example/" +:+ name;
     File.previous_filename := None |}.

(** Scenario 2 of the specification: only [build.gradle] changed. *)
Definition dependency_only : delivery :=
  {| owner := "runelite"; repo_name := "plugin-hub";
     files := [mk_file "package/verification-template/build.gradle" "modified"];
     request := λ _, Err (HttpError 404);
     first_rejection := 0; reviews := []; members := [] |}.

(** A plugin file whose [repository] is an SSH clone URL. *)
Definition ssh_plugin : delivery :=
  {| owner := "runelite"; repo_name := "plugin-hub";
     files := [mk_file "plugins/good" "removed"; mk_file "plugins/bar" "added"];
     request := λ _, Ok ("repository=git@github.com:a/b.git" +:+ Str.NL +:+
                         "commit=0123" +:+ Str.NL);
     first_rejection := 0; reviews := []; members := [] |}.

(** An issue on which the sticky comment was already posted. *)
Definition with_sticky : github :=
  {| issue_labels := {[PLUGIN_CHANGE]};
     issue_comments :=
       [{| Comment.id := 7; Comment.body := "first!" |};
        {| Comment.id := 9; Comment.body := marker +:+ Str.NL +:+ "old text" |}];
     received := [] |}.

(** Scenario 1 of the specification: [plugins/foo.plugin] is added. *)
Definition added_foo : delivery :=
  {| owner := "runelite"; repo_name := "plugin-hub";
     files := [mk_file "plugins/foo.plugin" "added"];
     request := λ _, Ok ("repository=https://github.com/alice/foo.git" +:+ Str.NL +:+
                         "commit=abc123" +:+ Str.NL);
     first_rejection := 0; reviews := []; members := [] |}.

(** A plugin file that was modified: the new file names the repository
    [alice/foo], the file on master the repository [bob/bar]. *)
Definition modified_example : delivery :=
  {| owner := "runelite"; repo_name := "plugin-hub";
     files := [mk_file "plugins/example" "modified"];
     request := λ url,
       if bool_decide (url = "https://raw.example/plugins/example") then
         Ok ("repository=https://github.com/alice/foo.git" +:+ Str.NL +:+
             "commit=222" +:+ Str.NL)
       else if bool_decide
                 (url = "https://github.com/runelite/plugin-hub/raw/master/plugins/example")
       then
         Ok ("repository=https://github.com/bob/bar.git" +:+ Str.NL +:+
             "commit=111" +:+ Str.NL)
       else Err (HttpError 404);
     first_rejection := 0; reviews := []; members := [] |}.

(** A plugin file that was modified and defines a commit only. *)
Definition no_repository : delivery :=
  {| owner := "runelite"; repo_name := "plugin-hub";
     files := [mk_file "plugins/foo" "modified"];
     request := λ _, Ok ("commit=abc123" +:+ Str.NL);
     first_rejection := 0; reviews := []; members := [] |}.

Definition mk_review (who st text : string) : Review.t :=
  {| Review.login := who; Review.state := st; Review.body := text |}.

(** A delivery of the approver team [alice], [bob] with the given reviews. *)
Definition reviewed (rs : list Review.t) : delivery :=
  {| owner := "runelite"; repo_name := "plugin-hub"; files := [];
     request := λ _, Err (HttpError 404);
     first_rejection := 0; reviews := rs; members := ["alice"; "bob"] |}.

(** ** Reference definitions the properties are stated against *)

(** [[c]]: the class of the one character [c] *)
Definition is_char (c : ascii) : ascii → bool := λ a, Ascii.eqb a c.

(** What a line of a property file contributes: leading [=] characters are
    passed over; the key is the text up to the next [=], the value is what
    follows that [=] up to the first line terminator. *)
Definition line_pair (line : string) : option (string * string) :=
  let l := Str.drop_while (is_char "=") line in
  match Str.drop_while (Regex.neg "=") l with
  | String _ rest =>
      Some (Str.take_while (Regex.neg "=") l, Str.take_while Regex.dot rest)
  | EmptyString => None
  end.

(** The entry a line leaves in the record: its pair, unless the key is
    [__proto__]. *)
Definition line_entry (line : string) : option (string * string) :=
  match line_pair line with
  | Some kv => if bool_decide (kv.1 = "__proto__") then None else Some kv
  | None => None
  end.

(** The write of one line. *)
Definition line_step (m : gmap string string) (line : string)
    : gmap string string :=
  match line_entry line with
  | Some kv => <[kv.1:=kv.2]> m
  | None => m
  end.

(** The value the last write to [k] left, in a sequence of writes. *)
Definition last_write {K V} `{EqDecision K} (k : K) (ws : list (K * V))
    : option V :=
  snd <$> last (filter (λ kv, kv.1 = k) ws).

(** A review counts as a rejection when it is not an approval and its state
    is anything but [COMMENTED]. *)
Definition rejection (r : Review.t) : bool :=
  negb (approved r) && negb (bool_decide (Review.state r = "COMMENTED")).

(** The decision a review writes: none for a review of a non-member and for
    a [COMMENTED] review whose body is not [lgtm]; otherwise the login with
    [true] for an approval and [false] for a rejection. *)
Definition decision (members : gset string) (r : Review.t)
    : option (string * bool) :=
  if bool_decide (Review.login r ∈ members) then
    if approved r then Some (Review.login r, true)
    else if rejection r then Some (Review.login r, false)
    else None
  else None.

(** The calls of the comment API. *)
Definition is_comment_call (c : call) : bool :=
  match c with
  | UpdateComment _ _ | CreateComment _ => true
  | AddLabels _ | RemoveLabel _ => false
  end.

(** How many comments of the issue start with the marker. *)
Definition sticky_count (g : github) : nat :=
  length (List.filter is_sticky (issue_comments g)).

(** The remote state after a sequence of pull_request deliveries, each
    handled to its end (or to its failure) before the next. *)
Fixpoint deliver_all (ds : list delivery) (g : github) : github :=
  match ds with
  | [] => g
  | d :: ds' => deliver_all ds' (on_pull_request d g).1
  end.

(** The fold of the review handler with the team filter folded in. *)
Definition member_step (members : gset string) (acc : gmap string bool)
    (r : Review.t) : gmap string bool :=
  if bool_decide (Review.login r ∈ members) then review_step acc r else acc.

(** The label set the pull_request handler leaves, from the one it found. *)
Definition labels_after (d : delivery) (S : gset string) : gset string :=
  let p := classify (files d) in
  let S1 := S ∖ {[READY_TO_MERGE]} in
  let S2 := if nonempty (pluginFiles p) then S1 ∪ {[PLUGIN_CHANGE]}
            else S1 ∖ {[PLUGIN_CHANGE]} in
  let S3 := if nonempty (dependencyFiles p) then S2 ∪ {[DEPENDENCY_CHANGE]}
            else S2 ∖ {[DEPENDENCY_CHANGE]} in
  if nonempty (otherFiles p) then S3 ∪ {[PACKAGE_CHANGE]}
  else S3 ∖ {[PACKAGE_CHANGE]}.

(** Comment ids are distinct and at most one comment is a marker comment. *)
Definition sticky_inv (g : github) : Prop :=
  NoDup (map Comment.id (issue_comments g)) ∧ sticky_count g ≤ 1.

(** The three classes of the change classifier, as predicates on a file. *)
Definition is_plugin (f : File.t) : bool :=
  Str.startsWith "plugins/" (File.filename f).

Definition is_manifest (f : File.t) : bool :=
  bool_decide (File.filename f = "package/verification-template/build.gradle")
  || bool_decide (File.filename f =
                  "package/verification-template/gradle/verification-metadata.xml").

Definition is_dependency (f : File.t) : bool := negb (is_plugin f) && is_manifest f.

Definition is_other (f : File.t) : bool := negb (is_plugin f) && negb (is_manifest f).

(** The comments an upsert of the text [t] leaves, from the ones it lists. *)
Definition upserted (t : string) (cs : list Comment.t) : list Comment.t :=
  match List.find is_sticky cs with
  | Some c => map (set_body (Comment.id c) (marker +:+ Str.NL +:+ t)) cs
  | None =>
      if truthy t
      then cs ++ [{| Comment.id := fresh_id cs;
                     Comment.body := marker +:+ Str.NL +:+ t |}]
      else cs
  end.

(** The clone URL of the repository [r] of [u]. *)
Definition clone_url (u r : string) : string :=
  "https://github.com/" +:+ u +:+ "/" +:+ r +:+ ".git".

(** * Properties *)

(** ** Strings *)

Lemma append_empty_r (s : string) : s +:+ "" = s.
Proof. induction s as [|a s IH]; simpl; [done | by rewrite IH]. Qed.

Lemma append_append (s t u : string) : (s +:+ t) +:+ u = s +:+ t +:+ u.
Proof. induction s as [|a s IH]; simpl; [done | by rewrite IH]. Qed.

Lemma ascii_eqb_eq (a b : ascii) : Ascii.eqb a b = true ↔ a = b.
Proof. apply Ascii.eqb_eq. Qed.

Lemma take_drop_while p s : Str.take_while p s +:+ Str.drop_while p s = s.
Proof.
  induction s as [|a s IH]; simpl; [done |].
  destruct (p a); simpl; [by rewrite IH | done].
Qed.

Lemma all_take_while p s : Str.all p (Str.take_while p s) = true.
Proof.
  induction s as [|a s IH]; simpl; [done |].
  destruct (p a) eqn:E; simpl; [by rewrite E | done].
Qed.

Lemma take_while_all p s t :
  Str.all p s = true →
  Str.take_while p (s +:+ t) = s +:+ Str.take_while p t.
Proof.
  induction s as [|a s IH]; simpl; [done |].
  intros [Ha Hs]%andb_prop. by rewrite Ha, IH.
Qed.

Lemma drop_while_all p s t :
  Str.all p s = true →
  Str.drop_while p (s +:+ t) = Str.drop_while p t.
Proof.
  induction s as [|a s IH]; simpl; [done |].
  intros [Ha Hs]%andb_prop. by rewrite Ha, IH.
Qed.

Lemma all_neg_has c s : Str.all (Regex.neg c) s = negb (Str.has c s).
Proof.
  induction s as [|a s IH]; simpl; [done |].
  unfold Regex.neg at 1. destruct (Ascii.eqb a c); simpl; [done | apply IH].
Qed.

Lemma has_drop_while c s :
  Str.has c s = true →
  ∃ v, Str.drop_while (Regex.neg c) s = String c v.
Proof.
  induction s as [|a s IH]; simpl; [done |].
  unfold Regex.neg at 1.
  destruct (Ascii.eqb a c) eqn:E; simpl.
  - apply ascii_eqb_eq in E as ->. eauto.
  - apply IH.
Qed.

Lemma no_has_drop_while c s :
  Str.has c s = false → Str.drop_while (Regex.neg c) s = "".
Proof.
  induction s as [|a s IH]; simpl; [done |].
  unfold Regex.neg at 1.
  destruct (Ascii.eqb a c) eqn:E; simpl; [done | apply IH].
Qed.

Lemma startsWith_app p s : Str.startsWith p (p +:+ s) = true.
Proof.
  induction p as [|a p IH]; simpl; [done |].
  by rewrite Ascii.eqb_refl.
Qed.

Lemma startsWith_inv p s :
  Str.startsWith p s = true → s = p +:+ Str.drop (String.length p) s.
Proof.
  revert s. induction p as [|a p IH]; intros [|b s]; simpl; try done.
  destruct (Ascii.eqb a b) eqn:E; [|done].
  apply ascii_eqb_eq in E as ->. intros H. f_equal. by apply IH.
Qed.

Lemma drop_app p s : Str.drop (String.length p) (p +:+ s) = s.
Proof. induction p as [|a p IH]; simpl; done. Qed.

Lemma includes_startsWith p s :
  Str.startsWith p s = true → Str.includes p s = true.
Proof. intros H. destruct s; simpl; by rewrite H. Qed.

Lemma includes_app pre p s : Str.includes p (pre +:+ p +:+ s) = true.
Proof.
  induction pre as [|a pre IH]; simpl.
  - apply includes_startsWith, startsWith_app.
  - rewrite IH. by destruct (Str.startsWith _ _).
Qed.

(** ** The matcher *)

Section star_lemmas.
Context {A : Type} (p : ascii → bool) (k : string → string → option A).

(** The longest run is the first one tried. *)
Lemma star_first got s r :
  k (got +:+ Str.take_while p s) (Str.drop_while p s) = Some r →
  Regex.star p k got s = Some r.
Proof.
  revert got. induction s as [|a s IH]; intros got; simpl.
  - by rewrite append_empty_r.
  - destruct (p a); simpl.
    + intros H. rewrite (IH (got +:+ String a "")); [done |].
      by rewrite append_append.
    + by rewrite append_empty_r.
Qed.

(** When the continuation refuses every rest that starts inside the run,
    only the longest run counts. *)
Lemma star_max got s :
  (∀ got' c rest, p c = true → k got' (String c rest) = None) →
  Regex.star p k got s =
  k (got +:+ Str.take_while p s) (Str.drop_while p s).
Proof.
  intros Hk. revert got. induction s as [|a s IH]; intros got; simpl.
  - by rewrite append_empty_r.
  - destruct (p a) eqn:E; simpl.
    + rewrite IH, append_append. simpl.
      destruct (k _ _); [done |]. by apply Hk.
    + by rewrite append_empty_r.
Qed.

(** Whatever the matcher returns comes from some split of the input. *)
Lemma star_sound got s r :
  Regex.star p k got s = Some r →
  ∃ s1 s2, s = s1 +:+ s2 ∧ Str.all p s1 = true ∧ k (got +:+ s1) s2 = Some r.
Proof.
  revert got. induction s as [|a s IH]; intros got; simpl.
  - intros H. exists "", "". by rewrite !append_empty_r.
  - destruct (p a) eqn:E.
    + destruct (Regex.star p k (got +:+ String a "") s) as [r'|] eqn:Es.
      * intros [= ->]. apply IH in Es as (s1 & s2 & -> & Hall & Hk).
        exists (String a s1), s2. simpl. rewrite E, Hall.
        rewrite append_append in Hk. by split_and!.
      * intros H. exists "", (String a s). by rewrite append_empty_r.
    + intros H. exists "", (String a s). by rewrite append_empty_r.
Qed.
End star_lemmas.

Lemma mseq_lit p r s caps :
  Regex.mseq (Regex.lit p ++ r) s caps =
  if Str.startsWith p s then Regex.mseq r (Str.drop (String.length p) s) caps
  else None.
Proof.
  revert s. induction p as [|a p IH]; intros s; simpl; [done |].
  destruct s as [|b s]; [done |].
  rewrite (Ascii.eqb_sym a b). destruct (Ascii.eqb b a); [apply IH | done].
Qed.

Lemma exec_sound r s caps :
  Regex.exec r s = Some caps →
  ∃ pre rest, s = pre +:+ rest ∧ Regex.mseq r rest [] = Some caps.
Proof.
  induction s as [|a s IH]; simpl.
  - destruct (Regex.mseq r "" []) eqn:E; [|done].
    intros [= ->]. by exists "", "".
  - destruct (Regex.mseq r (String a s) []) eqn:E.
    + intros [= ->]. by exists "", (String a s).
    + intros (pre & rest & -> & H)%IH. by exists (String a pre), rest.
Qed.

Lemma exec_lit_none p r s :
  Str.includes p s = false → Regex.exec (Regex.lit p ++ r) s = None.
Proof.
  induction s as [|a s IH]; simpl; rewrite mseq_lit.
  - by destruct (Str.startsWith p "").
  - destruct (Str.startsWith p (String a s)); [done | exact IH].
Qed.

(** ** Last write wins *)

Section last_write.
Context {A K V : Type} `{Countable K}.
Variable w : A → option (K * V).
Variable step : gmap K V → A → gmap K V.
Hypothesis step_writes : ∀ m a,
  step m a = match w a with Some kv => <[kv.1:=kv.2]> m | None => m end.

Lemma foldl_last_write (l : list A) (k : K) :
  foldl step ∅ l !! k = last_write k (omap w l).
Proof.
  unfold last_write.
  induction l as [|a l IH] using rev_ind; [done |].
  rewrite foldl_app, omap_app; simpl. rewrite step_writes.
  destruct (w a) as [[k' v]|]; simpl.
  - rewrite filter_app, filter_cons, filter_nil; simpl.
    destruct (decide (k' = k)) as [->|Hne].
    + by rewrite lookup_insert_eq, last_snoc.
    + by rewrite lookup_insert_ne, app_nil_r.
  - by rewrite app_nil_r.
Qed.

Lemma foldl_empty_iff (l : list A) :
  foldl step ∅ l = ∅ ↔ omap w l = [].
Proof.
  induction l as [|a l IH] using rev_ind; [done |].
  rewrite foldl_app, omap_app; simpl. rewrite step_writes.
  destruct (w a) as [[k' v]|]; simpl.
  - split.
    + intros Hm. by apply insert_non_empty in Hm.
    + intros Hl. by apply app_nil in Hl as [_ ?].
  - by rewrite app_nil_r.
Qed.
End last_write.

Lemma last_write_elem {K V} `{EqDecision K} (k : K) (v : V) (ws : list (K * V)) :
  last_write k ws = Some v → (k, v) ∈ ws.
Proof.
  unfold last_write. destruct (last _) as [[k' v']|] eqn:E; [|done].
  simpl. intros [= ->]. apply last_Some_elem_of in E.
  apply list_elem_of_filter in E as [Hk Hin]. simpl in Hk. by subst.
Qed.

(** ** The property-file regex *)

Lemma drop_while_head p s c rest :
  Str.drop_while p s = String c rest → p c = false.
Proof.
  induction s as [|a s IH]; simpl; [done |].
  destruct (p a) eqn:E; [done |]. by intros [= <- _].
Qed.

Lemma neg_false a c : Regex.neg c a = false → a = c.
Proof.
  unfold Regex.neg. destruct (Ascii.eqb a c) eqn:E; [|done].
  by apply ascii_eqb_eq in E.
Qed.

Lemma exec_mseq r s caps :
  Regex.mseq r s [] = Some caps → Regex.exec r s = Some caps.
Proof. intros H. destruct s; simpl; by rewrite H. Qed.

Lemma kv_mseq a l :
  Regex.mseq kv_regex (String a l) [] =
  if Regex.neg "=" a then
    match Str.drop_while (Regex.neg "=") l with
    | String _ rest =>
        Some [String a (Str.take_while (Regex.neg "=") l);
              Str.take_while Regex.dot rest]
    | EmptyString => None
    end
  else None.
Proof.
  unfold kv_regex. simpl.
  destruct (Regex.neg "=" a); [|done].
  rewrite star_max.
  - simpl. destruct (Str.drop_while (Regex.neg "=") l) as [|c rest] eqn:E; [done |].
    apply drop_while_head, neg_false in E as ->. simpl.
    by apply star_first.
  - intros got' c rest Hc. unfold Regex.neg in Hc.
    destruct (Ascii.eqb c "=") eqn:E; [done |]. simpl. by rewrite ?E.
Qed.

Lemma kv_exec_none l :
  Str.drop_while (Regex.neg "=") l = "" → Regex.exec kv_regex l = None.
Proof.
  induction l as [|a l IH]; [done |].
  intros H. simpl in H. cbn [Regex.exec]. rewrite kv_mseq.
  destruct (Regex.neg "=" a); [|done].
  rewrite H. by apply IH.
Qed.

Lemma line_pair_skip l : line_pair (String "=" l) = line_pair l.
Proof. done. Qed.

Lemma line_pair_key a l :
  a ≠ "="%char →
  line_pair (String a l) =
  match Str.drop_while (Regex.neg "=") l with
  | String _ rest =>
      Some (String a (Str.take_while (Regex.neg "=") l),
            Str.take_while Regex.dot rest)
  | EmptyString => None
  end.
Proof.
  intros Ha. unfold line_pair. simpl.
  assert (Ascii.eqb a "=" = false) as E by by apply Ascii.eqb_neq.
  unfold is_char, Regex.neg. rewrite E. simpl. by rewrite E.
Qed.

Lemma kv_exec l :
  Regex.exec kv_regex l = (λ kv, [kv.1; kv.2]) <$> line_pair l.
Proof.
  induction l as [|a l IH]; [done |].
  cbn [Regex.exec]. rewrite kv_mseq.
  destruct (decide (a = "="%char)) as [->|Ha].
  - rewrite line_pair_skip. exact IH.
  - rewrite line_pair_key by done.
    assert (Regex.neg "=" a = true) as ->.
    { unfold Regex.neg. by apply Ascii.eqb_neq in Ha as ->. }
    destruct (Str.drop_while (Regex.neg "=") l) eqn:El; [|done].
    by apply kv_exec_none.
Qed.

Lemma readKV_writes data :
  readKV data = foldl line_step ∅ (Str.split Str.LF data).
Proof.
  unfold readKV. generalize (Str.split Str.LF data) as ls.
  generalize (∅ : gmap string string) as m.
  intros m ls. revert m. induction ls as [|l ls IH]; intros m; [done |].
  simpl. unfold line_step at 2, line_entry. rewrite kv_exec.
  destruct (line_pair l) as [[k v]|]; simpl; [|apply IH].
  destruct (bool_decide (k = "__proto__")); apply IH.
Qed.

Lemma readKV_lookup data k :
  readKV data !! k = last_write k (omap line_entry (Str.split Str.LF data)).
Proof. rewrite readKV_writes. by apply (foldl_last_write line_entry). Qed.

Lemma line_entry_key line k v :
  line_entry line = Some (k, v) →
  line_pair line = Some (k, v) ∧ k ≠ "__proto__".
Proof.
  unfold line_entry. destruct (line_pair line) as [[k' v']|]; [|done].
  simpl. case_bool_decide; [done |]. by intros [= <- <-].
Qed.

Lemma has_cons_false c a s :
  Str.has c (String a s) = false → a ≠ c ∧ Str.has c s = false.
Proof.
  simpl. destruct (Ascii.eqb a c) eqn:E; [done |].
  by apply Ascii.eqb_neq in E.
Qed.

Lemma line_pair_shape key v :
  key ≠ "" → Str.has "=" key = false →
  line_pair (key +:+ "=" +:+ v) = Some (key, Str.take_while Regex.dot v).
Proof.
  destruct key as [|a key]; [done |]. intros _ [Ha Hk]%has_cons_false.
  assert (Str.all (Regex.neg "=") key = true) as Hall
    by by rewrite all_neg_has, Hk.
  simpl. rewrite line_pair_key by done.
  rewrite drop_while_all, take_while_all by done.
  simpl. by rewrite append_empty_r.
Qed.

Lemma line_pair_no_eq line : Str.has "=" line = false → line_pair line = None.
Proof.
  destruct line as [|a l]; [done |]. intros [Ha Hl]%has_cons_false.
  rewrite line_pair_key by done. by rewrite no_has_drop_while.
Qed.

(** ** The clone-URL regex *)

Lemma url_tail_accepts u r rest :
  u ≠ "" → Str.has "/" u = false → r ≠ "" → Str.has "." r = false →
  Regex.mseq url_tail (u +:+ "/" +:+ r +:+ ".git" +:+ rest) [] = Some [u; r].
Proof.
  destruct u as [|a u]; [done |]. intros _ [Ha Hu]%has_cons_false.
  destruct r as [|b r]; [done |]. intros _ [Hb Hr]%has_cons_false.
  assert (Str.all (Regex.neg "/") u = true) as Hau by by rewrite all_neg_has, Hu.
  assert (Str.all (Regex.neg ".") r = true) as Har by by rewrite all_neg_has, Hr.
  assert (Regex.neg "/" a = true) as Ea.
  { unfold Regex.neg. by apply Ascii.eqb_neq in Ha as ->. }
  assert (Regex.neg "." b = true) as Eb.
  { unfold Regex.neg. by apply Ascii.eqb_neq in Hb as ->. }
  unfold url_tail. simpl. rewrite Ea.
  apply star_first. rewrite take_while_all, drop_while_all by done.
  simpl. rewrite append_empty_r, Eb.
  apply star_first. rewrite take_while_all, drop_while_all by done.
  simpl. by rewrite append_empty_r.
Qed.

Lemma url_tail_sound s caps :
  Regex.mseq url_tail s [] = Some caps →
  ∃ u r c rest,
    caps = [u; r] ∧ s = u +:+ "/" +:+ r +:+ String c ("git" +:+ rest) ∧
    u ≠ "" ∧ Str.has "/" u = false ∧ r ≠ "" ∧ Str.has "." r = false ∧
    Regex.dot c = true.
Proof.
  unfold url_tail. simpl.
  destruct s as [|a s]; [done |].
  destruct (Regex.neg "/" a) eqn:Ea; [|done].
  intros (u & s2 & -> & Hu & Hk)%star_sound.
  destruct s2 as [|x s2]; [done |]. simpl in Hk.
  destruct (Ascii.eqb x "/") eqn:Ex; [|done]. apply ascii_eqb_eq in Ex as ->.
  destruct s2 as [|b s2]; [done |].
  destruct (Regex.neg "." b) eqn:Eb; [|done].
  apply star_sound in Hk as (r & s3 & -> & Hr & Hk).
  destruct s3 as [|c s3]; [done |]. simpl in Hk.
  destruct (Regex.dot c) eqn:Ec; [|done].
  destruct s3 as [|g s3]; [done |].
  destruct (Ascii.eqb g "g") eqn:Eg; [|done]. apply ascii_eqb_eq in Eg as ->.
  destruct s3 as [|i s3]; [done |].
  destruct (Ascii.eqb i "i") eqn:Ei; [|done]. apply ascii_eqb_eq in Ei as ->.
  destruct s3 as [|t s3]; [done |].
  destruct (Ascii.eqb t "t") eqn:Et; [|done]. apply ascii_eqb_eq in Et as ->.
  injection Hk as <-.
  exists (String a u), (String b r), c, s3.
  rewrite all_neg_has in Hu, Hr.
  apply negb_true_iff in Hu, Hr.
  unfold Regex.neg in Ea, Eb. apply negb_true_iff in Ea, Eb.
  split_and!; try done.
  - simpl. by rewrite Ea.
  - simpl. by rewrite Eb.
Qed.

Lemma extractURL_accepts u r rest :
  u ≠ "" → Str.has "/" u = false → r ≠ "" → Str.has "." r = false →
  extractURL (clone_url u r +:+ rest) = Ok {| user := u; repo := r |}.
Proof.
  intros Hu Hu' Hr Hr'. unfold extractURL.
  rewrite (exec_mseq _ _ [u; r]); [done |].
  unfold url_regex.
  unfold clone_url. rewrite !append_append.
  rewrite mseq_lit, startsWith_app, drop_app.
  by apply url_tail_accepts.
Qed.

Lemma extractURL_rejects s :
  Str.includes "https://github.com/" s = false →
  extractURL s = Err (Thrown (url_error s)).
Proof.
  intros H. unfold extractURL.
  unfold url_regex.
  by rewrite exec_lit_none.
Qed.

Lemma extractURL_sound s ref :
  extractURL s = Ok ref →
  user ref ≠ "" ∧ Str.has "/" (user ref) = false ∧
  repo ref ≠ "" ∧ Str.has "." (repo ref) = false ∧
  Str.includes ("https://github.com/" +:+ user ref +:+ "/" +:+ repo ref) s = true.
Proof.
  unfold extractURL.
  destruct (Regex.exec url_regex s) as [caps|] eqn:E; [|done].
  apply exec_sound in E as (pre & rest & -> & E).
  unfold url_regex in E.
  rewrite mseq_lit in E.
  destruct (Str.startsWith _ rest) eqn:Ep; [|done].
  apply startsWith_inv in Ep.
  apply url_tail_sound in E as (u & r & c & post & -> & E & Hu & Hu' & Hr & Hr' & _).
  intros [= <-]. simpl. split_and!; try done.
  rewrite Ep, E.
  replace ("https://github.com/" +:+ u +:+ "/" +:+ r +:+ String c ("git" +:+ post))
    with (("https://github.com/" +:+ u +:+ "/" +:+ r) +:+ String c ("git" +:+ post)).
  - apply includes_app.
  - by rewrite !append_append.
Qed.

Lemma length_append (s t : string) :
  String.length (s +:+ t) = String.length s + String.length t.
Proof. induction s as [|a s IH]; simpl; [done | by rewrite IH]. Qed.

Lemma endsWith_app s t : Str.endsWith t (s +:+ t) = true.
Proof.
  unfold Str.endsWith. rewrite length_append.
  replace (String.length s + String.length t - String.length t)
    with (String.length s) by lia.
  rewrite drop_app.
  apply andb_true_intro; split.
  - rewrite <- (append_empty_r t) at 2. apply startsWith_app.
  - apply Nat.leb_le. lia.
Qed.

Lemma clone_url_endsWith u r : Str.endsWith ".git" (clone_url u r) = true.
Proof.
  unfold clone_url.
  rewrite <- (append_append u), <- (append_append (u +:+ "/")),
    <- (append_append "https://github.com/").
  apply endsWith_app.
Qed.

(** C10, as stated, fails: a line whose prefix before its first [=] is empty
    still contributes when a later [=] follows some text; the value stops
    at a carriage return instead of running to the end of the line (a file
    with CRLF line ends loses the CR of every value); and a line whose key
    is [__proto__] contributes nothing although its key is not empty. *)
Lemma readKV_not_first_eq_nor_whole_rest :
  readKV "=a=b" = {[ "a" := "b" ]}
  ∧ readKV ("k=v" +:+ String Str.CR "") = {[ "k" := "v" ]}
  ∧ readKV ("k=v" +:+ String Str.CR "") ≠ {[ "k" := "v" +:+ String Str.CR "" ]}
  ∧ readKV "__proto__=x" = ∅.
Proof.
  split_and!; [by vm_compute | by vm_compute | | by vm_compute].
  intros H. apply (f_equal (λ m : gmap string string, m !! "k")) in H.
  vm_compute in H. discriminate H.
Qed.

(** C10, amended: every line is matched on its own and the match gives the
    pair [line_pair] says.  A line [key=value] with a non-empty key free of
    [=] gives the pair of the text before its first [=] and of the rest of
    the line up to its first line terminator (the rest may contain [=]); a
    line without [=] gives nothing; a leading [=] is passed over, so the
    line is read as if it began after it.  The pair of a line becomes an
    entry of the record unless its key is [__proto__], under which nothing
    is ever stored; and the record holds, for each key, the value of the
    last line that gave an entry for this key. *)
Theorem readKV_last_pair (data k : string) :
  readKV data !! k = last_write k (omap line_entry (Str.split Str.LF data))
  ∧ readKV data !! "__proto__" = None
  ∧ (∀ line, Regex.exec kv_regex line = (λ kv, [kv.1; kv.2]) <$> line_pair line)
  ∧ (∀ line, line_entry line =
       match line_pair line with
       | Some kv => if bool_decide (kv.1 = "__proto__") then None else Some kv
       | None => None
       end)
  ∧ (∀ key v, key ≠ "" → Str.has "=" key = false →
       line_pair (key +:+ "=" +:+ v) = Some (key, Str.take_while Regex.dot v))
  ∧ (∀ line, Str.has "=" line = false → line_pair line = None)
  ∧ (∀ line, line_pair (String "=" line) = line_pair line).
Proof.
  split_and!.
  - apply readKV_lookup.
  - rewrite readKV_lookup.
    destruct (last_write _ _) as [v|] eqn:E; [|done].
    apply last_write_elem, list_elem_of_omap in E as (line & _ & E).
    by apply line_entry_key in E as [_ ?].
  - apply kv_exec.
  - done.
  - apply line_pair_shape.
  - apply line_pair_no_eq.
  - apply line_pair_skip.
Qed.

Lemma readKV_last_pair_witness :
  readKV ("commit=abc" +:+ Str.NL +:+ "commit=def=1" +:+ Str.NL) !! "commit"
  = Some "def=1".
Proof.
  rewrite (proj1 (readKV_last_pair _ _)). reflexivity.
Defined.

(** C5, as stated, fails: the search is not anchored, so a string that only
    begins with a clone URL is accepted although it is not of the shape; and
    the clone URL of the repository [foo.bar] is of the shape and is
    refused, the class of the repository name being [[^.]]. *)
Lemma extractURL_not_exactly_clone_urls :
  (extractURL "https://github.com/a/b.git/" = Ok {| user := "a"; repo := "b" |}
   ∧ ∀ u r, clone_url u r ≠ "https://github.com/a/b.git/")
  ∧ extractURL (clone_url "alice" "foo.bar")
    = Err (Thrown (url_error "https://github.com/alice/foo.bar.git")).
Proof.
  split_and!; [done | | done].
  intros u r H. pose proof (clone_url_endsWith u r) as E.
  rewrite H in E. discriminate E.
Qed.

Lemma exec_app r pre rest caps :
  Regex.mseq r rest [] = Some caps →
  ∃ caps', Regex.exec r (pre +:+ rest) = Some caps'.
Proof.
  intros H. induction pre as [|a pre IH]; simpl.
  - exists caps. by apply exec_mseq.
  - destruct (Regex.mseq r (String a (pre +:+ rest)) []) as [c|]; [by exists c |].
    exact IH.
Qed.

Lemma extractURL_occurrence s ref :
  extractURL s = Ok ref →
  ∃ pre c post,
    s = pre +:+ "https://github.com/" +:+ user ref +:+ "/" +:+ repo ref +:+
        String c ("git" +:+ post)
    ∧ Regex.dot c = true
    ∧ user ref ≠ "" ∧ Str.has "/" (user ref) = false
    ∧ repo ref ≠ "" ∧ Str.has "." (repo ref) = false.
Proof.
  unfold extractURL.
  destruct (Regex.exec url_regex s) as [caps|] eqn:E; [|done].
  apply exec_sound in E as (pre & rest & -> & E).
  unfold url_regex in E. rewrite mseq_lit in E.
  destruct (Str.startsWith _ rest) eqn:Ep; [|done].
  apply startsWith_inv in Ep.
  apply url_tail_sound in E as (u & r & c & post & -> & E & Hu & Hu' & Hr & Hr' & Hc).
  intros [= <-]. simpl. exists pre, c, post.
  split_and!; try done. by rewrite Ep, E.
Qed.

Lemma extractURL_contains pre u r rest :
  u ≠ "" → Str.has "/" u = false → r ≠ "" → Str.has "." r = false →
  ∃ ref, extractURL (pre +:+ clone_url u r +:+ rest) = Ok ref.
Proof.
  intros Hu Hu' Hr Hr'.
  assert (Regex.mseq url_regex (clone_url u r +:+ rest) [] = Some [u; r]) as Hm.
  { unfold url_regex, clone_url. rewrite !append_append.
    rewrite mseq_lit, startsWith_app, drop_app. by apply url_tail_accepts. }
  destruct (exec_app _ pre _ _ Hm) as [caps E].
  unfold extractURL. rewrite E.
  apply exec_sound in E as (pre' & rest' & _ & E).
  unfold url_regex in E. rewrite mseq_lit in E.
  destruct (Str.startsWith _ rest'); [|done].
  apply url_tail_sound in E as (u' & r' & _ & _ & -> & _). eauto.
Qed.

(** C5, amended: the search is not anchored and the class of the repository
    name is [[^.]].  [extractURL] succeeds on every string that contains a
    clone URL [https://github.com/<user>/<repo>.git] where [<user>] is not
    empty and has no [/] and [<repo>] is not empty and has no [.], and when
    the string begins with that URL it returns exactly that pair.  It
    succeeds only on a string that contains
    [https://github.com/<user>/<repo>] followed by one character and [git],
    with [<user>] not empty and free of [/] and [<repo>] not empty and free
    of [.], and the pair it returns is the one of such an occurrence.  Every
    string without such an occurrence, as every string in which
    [https://github.com/] does not occur, is a hard failure: a raised error
    naming the string, never a skip or a default. *)
Theorem extractURL_spec (s : string) :
  (∀ u r rest, s = clone_url u r +:+ rest →
     u ≠ "" → Str.has "/" u = false → r ≠ "" → Str.has "." r = false →
     extractURL s = Ok {| user := u; repo := r |})
  ∧ (∀ pre u r rest, s = pre +:+ clone_url u r +:+ rest →
     u ≠ "" → Str.has "/" u = false → r ≠ "" → Str.has "." r = false →
     ∃ ref, extractURL s = Ok ref)
  ∧ (Str.includes "https://github.com/" s = false →
     extractURL s = Err (Thrown (url_error s)))
  ∧ (∀ ref, extractURL s = Ok ref →
       (∃ pre c post,
          s = pre +:+ "https://github.com/" +:+ user ref +:+ "/" +:+ repo ref +:+
              String c ("git" +:+ post)
          ∧ Regex.dot c = true)
       ∧ user ref ≠ "" ∧ Str.has "/" (user ref) = false
       ∧ repo ref ≠ "" ∧ Str.has "." (repo ref) = false
       ∧ Str.includes
           ("https://github.com/" +:+ user ref +:+ "/" +:+ repo ref) s = true)
  ∧ ((∃ ref, extractURL s = Ok ref) ∨ extractURL s = Err (Thrown (url_error s)))
  ∧ ((¬ ∃ pre u r c post,
        s = pre +:+ "https://github.com/" +:+ u +:+ "/" +:+ r +:+
            String c ("git" +:+ post)
        ∧ Regex.dot c = true
        ∧ u ≠ "" ∧ Str.has "/" u = false ∧ r ≠ "" ∧ Str.has "." r = false) →
     extractURL s = Err (Thrown (url_error s))).
Proof.
  assert ((∃ ref, extractURL s = Ok ref)
          ∨ extractURL s = Err (Thrown (url_error s))) as Hdich.
  { unfold extractURL.
    destruct (Regex.exec url_regex s) as [[|u [|r [|]]]|]; eauto. }
  split_and!.
  - intros u r rest ->. apply extractURL_accepts.
  - intros pre u r rest ->. apply extractURL_contains.
  - apply extractURL_rejects.
  - intros ref Href.
    destruct (extractURL_occurrence s ref Href)
      as (pre & c & post & Hs & Hc & Hu & Hu' & Hr & Hr').
    destruct (extractURL_sound s ref Href) as (_ & _ & _ & _ & Hi).
    split_and!; try done. by exists pre, c, post.
  - exact Hdich.
  - intros Hno. destruct Hdich as [[ref Href] | Herr]; [|done].
    exfalso. apply Hno.
    destruct (extractURL_occurrence s ref Href)
      as (pre & c & post & Hs & Hc & Hu & Hu' & Hr & Hr').
    by exists pre, (user ref), (repo ref), c, post.
Qed.

(** The web address of a repository is not a clone URL: nothing follows the
    repository name. *)
Example extractURL_refuses_web_url :
  extractURL "https://github.com/alice/foo"
  = Err (Thrown (url_error "https://github.com/alice/foo")).
Proof. reflexivity. Qed.

(** The [.] before [git] is not escaped in the pattern: any character that is
    not a line terminator stands for it. *)
Example extractURL_any_character_before_git :
  extractURL "https://github.com/a/bXgit" = Ok {| user := "a"; repo := "b" |}.
Proof. reflexivity. Qed.

Lemma extractURL_spec_witness :
  extractURL "https://github.com/alice/foo.git"
  = Ok {| user := "alice"; repo := "foo" |}.
Proof.
  apply (proj1 (extractURL_spec _) "alice" "foo" ""); [reflexivity | done..].
Defined.

(** ** The label reconciler *)

Lemma labels_snapshot (g : github) :
  list_to_set (elements (issue_labels g)) = issue_labels g.
Proof. apply list_to_set_elements_L. Qed.

Lemma setHasLabel_add (S : gset string) (L : string) (g : github) :
  L ∉ S →
  setHasLabel S true L g =
  ({| issue_labels := issue_labels g ∪ {[L]};
      issue_comments := issue_comments g;
      received := received g ++ [AddLabels [L]] |}, Ok tt).
Proof.
  intros HL. unfold setHasLabel. rewrite bool_decide_eq_false_2 by done.
  simpl. unfold addLabels. do 2 f_equal. simpl.
  by rewrite union_empty_r_L.
Qed.

Lemma setHasLabel_remove (S : gset string) (L : string) (g : github) :
  L ∈ S → L ∈ issue_labels g →
  setHasLabel S false L g =
  ({| issue_labels := issue_labels g ∖ {[L]};
      issue_comments := issue_comments g;
      received := received g ++ [RemoveLabel L] |}, Ok tt).
Proof.
  intros HL Hg. unfold setHasLabel. rewrite bool_decide_eq_true_2 by done.
  simpl. unfold removeLabel. by rewrite decide_True.
Qed.

Lemma setHasLabel_keep (S : gset string) (cond : bool) (L : string) (g : github) :
  (if cond then L ∈ S else L ∉ S) →
  setHasLabel S cond L g = (g, Ok tt).
Proof.
  intros HL. unfold setHasLabel. destruct cond.
  - by rewrite bool_decide_eq_true_2.
  - by rewrite bool_decide_eq_false_2.
Qed.

(** One call of [setHasLabel] for a label on which the snapshot and the
    remote side agree: it succeeds, sets the presence of that label to the
    condition and touches neither another label nor a comment. *)
Lemma setHasLabel_run (S : gset string) (cond : bool) (L : string) (g : github) :
  (L ∈ S ↔ L ∈ issue_labels g) →
  ∃ g', setHasLabel S cond L g = (g', Ok tt)
        ∧ issue_labels g' =
          (if cond then issue_labels g ∪ {[L]} else issue_labels g ∖ {[L]})
        ∧ issue_comments g' = issue_comments g
        ∧ (∃ cs, received g' = received g ++ cs
                 ∧ Forall (λ c, c = AddLabels [L] ∨ c = RemoveLabel L) cs).
Proof.
  intros Hagree. destruct (decide (L ∈ S)) as [HL|HL], cond.
  - exists g. rewrite (setHasLabel_keep S true) by done.
    split_and!; [done | | done |].
    + apply Hagree in HL. set_solver.
    + exists []. by rewrite app_nil_r.
  - eexists. rewrite setHasLabel_remove by (done || by apply Hagree).
    split_and!; [done.. |]. eexists. split; [done |].
    apply Forall_singleton. by right.
  - eexists. rewrite setHasLabel_add by done.
    split_and!; [done.. |]. eexists. split; [done |].
    apply Forall_singleton. by left.
  - exists g. rewrite (setHasLabel_keep S false) by done.
    split_and!; [done | | done |].
    + assert (L ∉ issue_labels g) by (by rewrite <- Hagree). set_solver.
    + exists []. by rewrite app_nil_r.
Qed.

(** C8: with [S] the current label set, [setHasLabel true L] on [S] without
    [L] adds exactly [L], [setHasLabel false L] on [S] with [L] removes
    exactly [L], and in the two other cases nothing is sent and nothing
    changes.  No comment is touched in any case. *)
Theorem setHasLabel_frame (S : gset string) (L : string) (g : github) :
  issue_labels g = S →
  (L ∉ S →
   setHasLabel S true L g =
   ({| issue_labels := S ∪ {[L]};
       issue_comments := issue_comments g;
       received := received g ++ [AddLabels [L]] |}, Ok tt))
  ∧ (L ∈ S →
     setHasLabel S false L g =
     ({| issue_labels := S ∖ {[L]};
         issue_comments := issue_comments g;
         received := received g ++ [RemoveLabel L] |}, Ok tt))
  ∧ (L ∈ S → setHasLabel S true L g = (g, Ok tt))
  ∧ (L ∉ S → setHasLabel S false L g = (g, Ok tt))
  ∧ (∀ cond L', L' ≠ L →
       (L' ∈ issue_labels (setHasLabel S cond L g).1 ↔ L' ∈ S)).
Proof.
  intros <-. split_and!.
  - apply setHasLabel_add.
  - intros HL. by apply setHasLabel_remove.
  - intros HL. by apply (setHasLabel_keep _ true).
  - intros HL. by apply (setHasLabel_keep _ false).
  - intros cond L' Hne.
    destruct (setHasLabel_run (issue_labels g) cond L g) as (g' & -> & Hl & _);
      [done |].
    simpl. rewrite Hl. destruct cond; set_solver.
Qed.

Lemma setHasLabel_frame_witness :
  (READY_TO_MERGE ∉ ({[PLUGIN_CHANGE]} : gset string))
  ∧ fst (setHasLabel {[PLUGIN_CHANGE]} true READY_TO_MERGE labelled_plugin)
    = {| issue_labels := {[PLUGIN_CHANGE]} ∪ {[READY_TO_MERGE]};
         issue_comments := [];
         received := [AddLabels [READY_TO_MERGE]] |}.
Proof.
  assert (READY_TO_MERGE ∉ ({[PLUGIN_CHANGE]} : gset string)) as HL
    by by vm_compute.
  split; [exact HL |].
  exact (f_equal fst (proj1 (setHasLabel_frame {[PLUGIN_CHANGE]}
                               READY_TO_MERGE labelled_plugin eq_refl) HL)).
Defined.

(** C7: applied a second time with the same condition, label and label set,
    [setHasLabel] leaves the label set the first application produced; a
    second [addLabels] for the same label is answered without an error; and
    once the label set is read again the second application sends nothing
    at all. *)
Theorem setHasLabel_idempotent (cond : bool) (L : string) (S : gset string)
    (g : github) :
  issue_labels g = S →
  let once := setHasLabel S cond L g in
  let twice := setHasLabel S cond L once.1 in
  once.2 = Ok tt
  ∧ issue_labels twice.1 = issue_labels once.1
  ∧ (cond = true → twice.2 = Ok tt)
  ∧ setHasLabel (issue_labels once.1) cond L once.1 = (once.1, Ok tt).
Proof.
  intros <-. simpl.
  destruct (decide (L ∈ issue_labels g)) as [HL|HL], cond.
  - rewrite !(setHasLabel_keep _ true) by done. simpl.
    by rewrite ?(setHasLabel_keep _ true).
  - rewrite setHasLabel_remove by done. simpl.
    split_and!; [done | | done |].
    + unfold setHasLabel. rewrite bool_decide_eq_true_2 by done. simpl.
      unfold removeLabel. simpl. rewrite decide_False by set_solver. done.
    + apply (setHasLabel_keep _ false). simpl. set_solver.
  - rewrite !setHasLabel_add by done. simpl.
    split_and!; [done | set_solver | done |].
    apply (setHasLabel_keep _ true). simpl. set_solver.
  - rewrite !(setHasLabel_keep _ false) by done. simpl.
    by rewrite ?(setHasLabel_keep _ false).
Qed.

Lemma setHasLabel_idempotent_witness :
  issue_labels
    (setHasLabel {[PLUGIN_CHANGE]} true READY_TO_MERGE
       (setHasLabel {[PLUGIN_CHANGE]} true READY_TO_MERGE labelled_plugin).1).1
  = issue_labels
      (setHasLabel {[PLUGIN_CHANGE]} true READY_TO_MERGE labelled_plugin).1.
Proof.
  exact (proj1 (proj2
    (setHasLabel_idempotent true READY_TO_MERGE {[PLUGIN_CHANGE]}
       labelled_plugin eq_refl))).
Defined.

(** ** The review consensus *)

Lemma foldl_filter {A B} (f : B → A → B) (P : A → bool) (l : list A) (b : B) :
  foldl f b (List.filter P l) = foldl (λ b a, if P a then f b a else b) b l.
Proof.
  revert b. induction l as [|a l IH]; intros b; simpl; [done |].
  destruct (P a); simpl; apply IH.
Qed.

Lemma member_step_decision members acc r :
  member_step members acc r =
  match decision members r with
  | Some kv => <[kv.1:=kv.2]> acc
  | None => acc
  end.
Proof.
  unfold member_step, decision, review_step, rejection.
  destruct (bool_decide (Review.login r ∈ members)); [|done].
  destruct (approved r); simpl; [done |].
  by destruct (bool_decide (Review.state r = "COMMENTED")).
Qed.

Lemma reviewStates_fold members rs :
  reviewStates members rs = foldl (member_step members) ∅ rs.
Proof. unfold reviewStates. apply foldl_filter. Qed.

Lemma reviewStates_lookup members rs l :
  reviewStates members rs !! l = last_write l (omap (decision members) rs).
Proof.
  rewrite reviewStates_fold.
  apply (foldl_last_write (decision members)), member_step_decision.
Qed.

Lemma reviewStates_snoc members rs r :
  reviewStates members (rs ++ [r]) =
  match decision members r with
  | Some kv => <[kv.1:=kv.2]> (reviewStates members rs)
  | None => reviewStates members rs
  end.
Proof.
  rewrite !reviewStates_fold, foldl_app. simpl. apply member_step_decision.
Qed.

Lemma reviewStates_empty members rs :
  reviewStates members rs = ∅ ↔ ∀ r, r ∈ rs → decision members r = None.
Proof.
  rewrite reviewStates_fold.
  rewrite (foldl_empty_iff (decision members)) by apply member_step_decision.
  induction rs as [|r rs IH]; simpl.
  - split; [|done]. intros _ r Hr. by apply elem_of_nil in Hr.
  - destruct (decision members r) eqn:E.
    + split; [done |]. intros H. specialize (H r (list_elem_of_here _ _)).
      congruence.
    + rewrite IH. split.
      * intros H r' [->|Hr']%elem_of_cons; [done | by apply H].
      * intros H r' Hr'. apply H. by apply elem_of_cons; right.
Qed.

Lemma unapproved_empty : unapproved ∅ = [].
Proof. unfold unapproved. by rewrite dom_empty_L, elements_empty. Qed.

Lemma unapproved_elem (m : gmap string bool) (l : string) :
  m !! l = Some false → l ∈ unapproved m.
Proof.
  intros Hl. unfold unapproved. apply list_elem_of_In, filter_In. split.
  - apply list_elem_of_In, elem_of_elements, elem_of_dom. eauto.
  - by rewrite Hl.
Qed.

(** C3: the decision map is the left-to-right fold of [decision] over the
    reviews: a login's entry is the decision of its last decisive review by
    a team member; a [COMMENTED] review whose body is not [lgtm] leaves the
    whole map as it is; an approval ([APPROVED], or body [lgtm] whatever the
    state) by a member writes [true] and any other state than [COMMENTED]
    writes [false]; so [CHANGES_REQUESTED] followed later by [APPROVED] of
    the same member ends approved. *)
Theorem reviewStates_last_decisive (members : gset string)
    (rs : list Review.t) (l : string) :
  reviewStates members rs !! l = last_write l (omap (decision members) rs)
  ∧ (∀ r, Review.state r = "COMMENTED" → Review.body r ≠ "lgtm" →
       reviewStates members (rs ++ [r]) = reviewStates members rs)
  ∧ (∀ r, Review.login r ∈ members →
       Review.state r = "APPROVED" ∨ Review.body r = "lgtm" →
       reviewStates members (rs ++ [r]) !! Review.login r = Some true)
  ∧ (∀ r, Review.login r ∈ members →
       Review.state r ≠ "APPROVED" → Review.body r ≠ "lgtm" →
       Review.state r ≠ "COMMENTED" →
       reviewStates members (rs ++ [r]) !! Review.login r = Some false)
  ∧ (∀ mid b1 b2, l ∈ members →
       reviewStates members
         (rs ++ [mk_review l "CHANGES_REQUESTED" b1] ++ mid ++
          [mk_review l "APPROVED" b2]) !! l = Some true).
Proof.
  split_and!.
  - apply reviewStates_lookup.
  - intros r Hs Hb. rewrite reviewStates_snoc. unfold decision, rejection, approved.
    rewrite Hs. rewrite (bool_decide_eq_false_2 (Review.body r = "lgtm")) by done.
    by destruct (bool_decide (Review.login r ∈ members)).
  - intros r Hm Ha. rewrite reviewStates_snoc. unfold decision.
    rewrite bool_decide_eq_true_2 by done.
    assert (approved r = true) as ->.
    { unfold approved. destruct Ha as [-> | ->]; [done |].
      by rewrite orb_true_r. }
    simpl. apply lookup_insert_eq.
  - intros r Hm Hs Hb Hc. rewrite reviewStates_snoc. unfold decision, rejection.
    rewrite bool_decide_eq_true_2 by done.
    assert (approved r = false) as ->.
    { unfold approved. by rewrite !bool_decide_eq_false_2. }
    rewrite (bool_decide_eq_false_2 (Review.state r = "COMMENTED")) by done.
    simpl. apply lookup_insert_eq.
  - intros mid b1 b2 Hl.
    rewrite !app_assoc, reviewStates_snoc. unfold decision. simpl.
    rewrite bool_decide_eq_true_2 by done. simpl. apply lookup_insert_eq.
Qed.

Lemma reviewStates_last_decisive_witness :
  reviewStates {["alice"; "bob"]}
    [mk_review "alice" "CHANGES_REQUESTED" "no"; mk_review "bob" "COMMENTED" "hm";
     mk_review "alice" "APPROVED" ""] !! "alice" = Some true.
Proof.
  rewrite (proj1 (reviewStates_last_decisive _ _ _)). by vm_compute.
Defined.

Lemma listLabels_bind {B} (k : list string → M B) (g : github) :
  (labelList <- listLabelsOnIssue ;; k labelList) g = k (elements (issue_labels g)) g.
Proof. done. Qed.

(** C4: whenever the decision map comes out empty the handler sends nothing
    and leaves the remote state, its label set included, exactly as it was;
    and the map is empty exactly when no review is a decisive review by a
    team member, which covers no review at all, reviews by non-members only
    and non-decisive comments only. *)
Theorem review_empty_map_no_change (d : delivery) (g : github) :
  (reviewStates (list_to_set (members d)) (reviews d) = ∅ →
   on_review_submitted d g = (g, Ok tt))
  ∧ (reviewStates (list_to_set (members d)) (reviews d) = ∅ ↔
     ∀ r, r ∈ reviews d → decision (list_to_set (members d)) r = None)
  ∧ (reviews d = [] → on_review_submitted d g = (g, Ok tt))
  ∧ ((∀ r, r ∈ reviews d → Review.login r ∉ members d) →
     on_review_submitted d g = (g, Ok tt))
  ∧ ((∀ r, r ∈ reviews d → Review.login r ∈ members d →
        Review.state r = "COMMENTED" ∧ Review.body r ≠ "lgtm") →
     on_review_submitted d g = (g, Ok tt)).
Proof.
  assert (reviewStates (list_to_set (members d)) (reviews d) = ∅ →
          on_review_submitted d g = (g, Ok tt)) as Hmain.
  { intros Hm. unfold on_review_submitted. rewrite listLabels_bind.
    destruct (negb (bool_decide (PLUGIN_CHANGE ∈ _))); [done |].
    destruct (length (reviews d) <=? 0); [done |].
    by rewrite Hm, unapproved_empty, dom_empty_L, elements_empty. }
  split_and!.
  - exact Hmain.
  - apply reviewStates_empty.
  - intros Hr. apply Hmain. by rewrite Hr.
  - intros Hr. apply Hmain, reviewStates_empty. intros r Hin.
    unfold decision. rewrite bool_decide_eq_false_2; [done |].
    rewrite elem_of_list_to_set. by apply Hr.
  - intros Hr. apply Hmain, reviewStates_empty. intros r Hin.
    unfold decision, rejection, approved.
    destruct (decide (Review.login r ∈ members d)) as [Hm|Hm].
    + destruct (Hr r Hin Hm) as [-> Hb].
      rewrite (bool_decide_eq_false_2 (Review.body r = "lgtm")) by done.
      by destruct (bool_decide _).
    + rewrite bool_decide_eq_false_2; [done |]. by rewrite elem_of_list_to_set.
Qed.

(** Scenario 5 of the specification: one [APPROVED] review by a non-member. *)
Lemma review_empty_map_no_change_witness :
  reviewStates (list_to_set (members (reviewed [mk_review "mallory" "APPROVED" ""])))
    (reviews (reviewed [mk_review "mallory" "APPROVED" ""])) = ∅
  ∧ on_review_submitted (reviewed [mk_review "mallory" "APPROVED" ""])
      labelled_plugin = (labelled_plugin, Ok tt).
Proof.
  assert (reviewStates
            (list_to_set (members (reviewed [mk_review "mallory" "APPROVED" ""])))
            (reviews (reviewed [mk_review "mallory" "APPROVED" ""])) = ∅) as Hm
    by by vm_compute.
  split; [exact Hm |].
  exact (proj1 (review_empty_map_no_change _ labelled_plugin) Hm).
Defined.

(** C2, as stated, fails: a rejection of a team member that the same member
    later overrides with an approval no longer blocks, and the label is
    added; and on a pull request without [plugin change] the handler returns
    at its first guard, so a [ready to merge] that is present stays. *)
Lemma rejection_in_list_does_not_block :
  let rs := [mk_review "alice" "CHANGES_REQUESTED" ""; mk_review "alice" "APPROVED" ""] in
  (rejection (mk_review "alice" "CHANGES_REQUESTED" "") = true
   ∧ "alice" ∈ members (reviewed rs)
   ∧ READY_TO_MERGE ∈ issue_labels (on_review_submitted (reviewed rs) labelled_plugin).1)
  ∧ READY_TO_MERGE ∈ issue_labels
      (on_review_submitted (reviewed [mk_review "alice" "CHANGES_REQUESTED" ""])
         {| issue_labels := {[READY_TO_MERGE]}; issue_comments := []; received := [] |}).1.
Proof.
  simpl. split_and!.
  - done.
  - set_solver.
  - by vm_compute.
  - by vm_compute.
Qed.

(** C2, amended: on a pull request that carries [plugin change], whenever
    the last decisive review of some team member is a rejection, the handler
    succeeds and the resulting label set does not include [ready to merge]
    (removed if present, never added), whatever approvals coexist in the
    list. *)
Theorem last_rejection_blocks (d : delivery) (g : github) (l : string) :
  PLUGIN_CHANGE ∈ issue_labels g →
  last_write l (omap (decision (list_to_set (members d))) (reviews d)) = Some false →
  (on_review_submitted d g).2 = Ok tt
  ∧ (READY_TO_MERGE ∉ issue_labels (on_review_submitted d g).1)
  ∧ (∀ c, c ∈ received (on_review_submitted d g).1 →
       c ∈ received g ∨ c = RemoveLabel READY_TO_MERGE).
Proof.
  intros Hp Hl. rewrite <- reviewStates_lookup in Hl.
  unfold on_review_submitted. rewrite listLabels_bind, labels_snapshot.
  rewrite (bool_decide_eq_true_2 _ Hp). simpl.
  destruct (reviews d) as [|r rs] eqn:Er; [done |]. simpl.
  apply unapproved_elem in Hl.
  destruct (unapproved _) as [|u us]; [by apply elem_of_nil in Hl |]. simpl.
  case_bool_decide as Hr.
  - unfold removeLabel. rewrite decide_True by done. simpl.
    split_and!; [done | set_solver |].
    intros c [Hc | ->%list_elem_of_singleton]%elem_of_app; eauto.
  - split_and!; [done | done | eauto].
Qed.

(** Scenario 4 of the specification. *)
Lemma last_rejection_blocks_witness :
  READY_TO_MERGE ∉ issue_labels
    (on_review_submitted
       (reviewed [mk_review "alice" "APPROVED" ""; mk_review "bob" "CHANGES_REQUESTED" ""])
       {| issue_labels := {[PLUGIN_CHANGE; READY_TO_MERGE]};
          issue_comments := []; received := [] |}).1.
Proof.
  refine (proj1 (proj2 (last_rejection_blocks _ _ "bob" _ _))).
  - set_solver.
  - by vm_compute.
Defined.

(** ** The pull_request handler *)

Lemma bind_run {A B} (m : M A) (k : A → M B) g g' a :
  m g = (g', Ok a) → (x <- m ;; k x) g = k a g'.
Proof. unfold bind. by intros ->. Qed.

(** The handler up to the narrative: the four label calls succeed and touch
    no comment; what follows is the narrative and, only if every paragraph
    was produced, the upsert. *)
Lemma on_pull_request_run (d : delivery) (g : github) :
  ∃ g4,
    issue_comments g4 = issue_comments g
    ∧ issue_labels g4 = labels_after d (issue_labels g)
    ∧ (∃ cs, received g4 = received g ++ cs
             ∧ Forall (λ c, is_comment_call c = false) cs)
    ∧ on_pull_request d g =
      match all (first_rejection d) (narrative d)
              (pluginFiles (classify (files d))) with
      | Ok paragraphs => upsert (difftext_of (classify (files d)) paragraphs) g4
      | Err e => (g4, Err e)
      end.
Proof.
  unfold on_pull_request. rewrite listLabels_bind, labels_snapshot.
  set (S := issue_labels g). set (p := classify (files d)).
  destruct (setHasLabel_run S false READY_TO_MERGE g)
    as (g1 & E1 & L1 & C1 & (cs1 & R1 & F1)); [done |].
  destruct (setHasLabel_run S (nonempty (pluginFiles p)) PLUGIN_CHANGE g1)
    as (g2 & E2 & L2 & C2 & (cs2 & R2 & F2)).
  { rewrite L1. subst S. set_solver. }
  destruct (setHasLabel_run S (nonempty (dependencyFiles p)) DEPENDENCY_CHANGE g2)
    as (g3 & E3 & L3 & C3 & (cs3 & R3 & F3)).
  { rewrite L2, L1. subst S. destruct (nonempty (pluginFiles p)); set_solver. }
  destruct (setHasLabel_run S (nonempty (otherFiles p)) PACKAGE_CHANGE g3)
    as (g4 & E4 & L4 & C4 & (cs4 & R4 & F4)).
  { rewrite L3, L2, L1. subst S.
    destruct (nonempty (pluginFiles p)), (nonempty (dependencyFiles p));
      set_solver. }
  exists g4. split_and!.
  - congruence.
  - unfold labels_after. fold p. by rewrite L4, L3, L2, L1.
  - exists (cs1 ++ cs2 ++ cs3 ++ cs4). split.
    + by rewrite R4, R3, R2, R1, <- !app_assoc.
    + rewrite !Forall_app. split_and!;
        (eapply Forall_impl; [eassumption |]); by intros c [-> | ->].
  - rewrite (bind_run _ _ _ _ _ E1), (bind_run _ _ _ _ _ E2),
      (bind_run _ _ _ _ _ E3), (bind_run _ _ _ _ _ E4).
    unfold bind, lift. by destruct (all _ _ _).
Qed.

Lemma classify_build_gradle (f : File.t) :
  File.filename f = "package/verification-template/build.gradle" →
  classify [f] =
  {| pluginFiles := []; dependencyFiles := [f]; otherFiles := [] |}.
Proof. intros Hf. unfold classify, classify_step. simpl. by rewrite Hf. Qed.

(** C1, as stated, fails: the warning line is prepended whenever a
    dependency or other file changed, also without any plugin file, so the
    text is not empty and a comment is created. *)
Lemma dependency_only_pr_gets_comment :
  on_pull_request dependency_only labelled_plugin =
  ({| issue_labels := {[DEPENDENCY_CHANGE]};
      issue_comments :=
        [{| Comment.id := 1;
            Comment.body := marker +:+ Str.NL +:+ warning +:+ Str.NL +:+ Str.NL |}];
      received :=
        [RemoveLabel PLUGIN_CHANGE; AddLabels [DEPENDENCY_CHANGE];
         CreateComment (marker +:+ Str.NL +:+ warning +:+ Str.NL +:+ Str.NL)] |},
   Ok tt).
Proof. by vm_compute. Qed.

(** C1, amended: for a pull request whose only changed file is
    [package/verification-template/build.gradle], no plugin file is
    classified and no narrative paragraph is generated; the text is the
    warning line followed by a blank line, the body is the marker line
    followed by that text, and when no sticky comment exists on the issue
    exactly one comment with this body is created. *)
Theorem dependency_only_pr (d : delivery) (g : github) (f : File.t) :
  files d = [f] →
  File.filename f = "package/verification-template/build.gradle" →
  List.find is_sticky (issue_comments g) = None →
  pluginFiles (classify (files d)) = []
  ∧ difftext_of (classify (files d)) [] = warning +:+ Str.NL +:+ Str.NL
  ∧ ∃ g', on_pull_request d g = (g', Ok tt)
      ∧ issue_comments g' =
        issue_comments g ++
        [{| Comment.id := fresh_id (issue_comments g);
            Comment.body := marker +:+ Str.NL +:+ warning +:+ Str.NL +:+ Str.NL |}]
      ∧ issue_labels g' = labels_after d (issue_labels g)
      ∧ last (received g') =
        Some (CreateComment (marker +:+ Str.NL +:+ warning +:+ Str.NL +:+ Str.NL)).
Proof.
  intros Hd Hf Hnone.
  destruct (on_pull_request_run d g) as (g4 & C4 & L4 & _ & ->).
  rewrite Hd, (classify_build_gradle f Hf). simpl.
  split_and!; [done | done |].
  unfold upsert. rewrite (bind_run _ _ g4 g4 (issue_comments g4)) by done.
  rewrite C4, Hnone. simpl. eexists. split_and!; [done | | | ].
  - simpl. by rewrite C4.
  - done.
  - simpl. by rewrite last_snoc.
Qed.

Lemma dependency_only_pr_witness :
  ∃ g', on_pull_request dependency_only labelled_plugin = (g', Ok tt)
        ∧ issue_comments g' =
          [{| Comment.id := 1;
              Comment.body := marker +:+ Str.NL +:+ warning +:+ Str.NL +:+ Str.NL |}].
Proof.
  destruct (dependency_only_pr dependency_only labelled_plugin
              (mk_file "package/verification-template/build.gradle" "modified")
              eq_refl eq_refl eq_refl) as (_ & _ & g' & E & C & _).
  exists g'. by split.
Defined.

Lemma settled_errors {A B} (F : A → result B) (xs : list A) (e : error) :
  e ∈ (settled F xs).2 ↔ ∃ x, x ∈ xs ∧ F x = Err e.
Proof.
  induction xs as [|y ys IH]; simpl.
  - split; [by intros ?%elem_of_nil | by intros (x & ?%elem_of_nil & _)].
  - destruct (F y) as [b|e'] eqn:Ey; simpl.
    + rewrite IH. split.
      * intros (x & Hx & Hn). exists x. split; [by apply elem_of_cons; right | done].
      * intros (x & [-> | Hx]%elem_of_cons & Hn); [congruence | eauto].
    + rewrite elem_of_cons, IH. split.
      * intros [-> | (x & Hx & Hn)].
        -- exists y. split; [apply list_elem_of_here | done].
        -- exists x. split; [by apply elem_of_cons; right | done].
      * intros (x & [-> | Hx]%elem_of_cons & Hn); [left; congruence | eauto].
Qed.

Lemma all_error {A B} (first : nat) (F : A → result B) (xs : list A) (e : error) :
  all first F xs = Err e → ∃ x, x ∈ xs ∧ F x = Err e.
Proof.
  unfold all. destruct (settled F xs).2 as [|e0 es] eqn:Es; [done |].
  intros [= <-]. apply settled_errors. rewrite Es.
  destruct ((e0 :: es) !! _) as [e'|] eqn:El; simpl.
  - by apply list_elem_of_lookup_2 in El.
  - apply list_elem_of_here.
Qed.

Lemma all_fails {A B} (first : nat) (F : A → result B) (xs : list A) (x : A)
    (e0 : error) :
  x ∈ xs → F x = Err e0 →
  ∃ e x', all first F xs = Err e ∧ x' ∈ xs ∧ F x' = Err e.
Proof.
  intros Hin Hx.
  assert (e0 ∈ (settled F xs).2) as He by (apply settled_errors; eauto).
  destruct (all first F xs) as [ys|e] eqn:Ea.
  - unfold all in Ea. destruct (settled F xs).2; [|done].
    by apply elem_of_nil in He.
  - destruct (all_error _ _ _ _ Ea) as (x' & Hx' & Hn). by exists e, x'.
Qed.

(** C6: when the narrative of some plugin file fails in [extractURL], the
    handler ends in an error (the failure of a plugin file's narrative, not
    caught anywhere), the comments of the issue are what they were, and no
    call of the comment API was sent: the upsert comes after the narrative
    of every plugin file. *)
Theorem extraction_failure_blocks_upsert (d : delivery) (g : github)
    (f : File.t) (url : string) :
  f ∈ pluginFiles (classify (files d)) →
  narrative d f = Err (Thrown (url_error url)) →
  ∃ g' e,
    on_pull_request d g = (g', Err e)
    ∧ (∃ f', f' ∈ pluginFiles (classify (files d)) ∧ narrative d f' = Err e)
    ∧ issue_comments g' = issue_comments g
    ∧ (∀ c, c ∈ received g' → is_comment_call c = true → c ∈ received g).
Proof.
  intros Hf Hn.
  destruct (on_pull_request_run d g) as (g4 & C4 & _ & (cs & R4 & F4) & ->).
  destruct (all_fails (first_rejection d) _ _ _ _ Hf Hn)
    as (e & f' & -> & Hf' & Hn').
  exists g4, e. split_and!; [done | by exists f' | done |].
  intros c Hc Hcall. rewrite R4 in Hc. apply elem_of_app in Hc as [Hc | Hc]; [done |].
  rewrite Forall_forall in F4. apply F4 in Hc. congruence.
Qed.

Lemma plugin_files_ssh :
  pluginFiles (classify (files ssh_plugin)) =
  [mk_file "plugins/good" "removed"; mk_file "plugins/bar" "added"].
Proof. by vm_compute. Qed.

Lemma extraction_failure_blocks_upsert_witness :
  ∃ g' e, on_pull_request ssh_plugin with_sticky = (g', Err e)
          ∧ issue_comments g' = issue_comments with_sticky.
Proof.
  destruct (extraction_failure_blocks_upsert ssh_plugin with_sticky
              (mk_file "plugins/bar" "added") "git@github.com:a/b.git")
    as (g' & e & E & _ & C & _).
  - rewrite plugin_files_ssh. apply elem_of_cons; right. apply list_elem_of_here.
  - vm_compute. reflexivity.
  - exists g', e. exact (conj E C).
Defined.

(** ** The sticky comment *)

Lemma set_body_id i b c : Comment.id (set_body i b c) = Comment.id c.
Proof. unfold set_body. by destruct (decide _). Qed.

Lemma ids_set_body i b cs :
  map Comment.id (map (set_body i b) cs) = map Comment.id cs.
Proof.
  rewrite map_map. apply map_ext. intros c. apply set_body_id.
Qed.

Lemma id_inj_NoDup (cs : list Comment.t) (x y : Comment.t) :
  NoDup (map Comment.id cs) → x ∈ cs → y ∈ cs →
  Comment.id x = Comment.id y → x = y.
Proof.
  induction cs as [|c cs IH]; [by intros _ ?%elem_of_nil |].
  simpl. intros [Hc Hcs]%NoDup_cons Hx Hy Hid.
  apply elem_of_cons in Hx as [-> | Hx]; apply elem_of_cons in Hy as [-> | Hy].
  - done.
  - exfalso. apply Hc. rewrite Hid. by apply list_elem_of_fmap_2.
  - exfalso. apply Hc. rewrite <- Hid. by apply list_elem_of_fmap_2.
  - by apply IH.
Qed.

Lemma is_sticky_body i t : is_sticky {| Comment.id := i; Comment.body := marker +:+ t |} = true.
Proof. reflexivity. Qed.

Lemma filter_map_length {A} (P : A → bool) (F : A → A) (l : list A) :
  (∀ x, x ∈ l → P (F x) = P x) →
  length (List.filter P (map F l)) = length (List.filter P l).
Proof.
  induction l as [|a l IH]; [done |]. intros H. simpl.
  rewrite (H a) by by apply elem_of_cons; left.
  destruct (P a); simpl; rewrite IH; try done;
    intros x Hx; apply H; by apply elem_of_cons; right.
Qed.

Lemma find_none_filter {A} (P : A → bool) (l : list A) :
  List.find P l = None → List.filter P l = [].
Proof.
  induction l as [|a l IH]; [done |]. simpl.
  destruct (P a); [done | exact IH].
Qed.

Lemma fresh_id_above (cs : list Comment.t) (i : nat) :
  i ∈ map Comment.id cs → i < fresh_id cs.
Proof.
  unfold fresh_id. induction cs as [|c cs IH]; simpl.
  - by intros ?%elem_of_nil.
  - intros [-> | Hi]%elem_of_cons; [lia |]. apply IH in Hi. lia.
Qed.

Lemma upsert_found (t : string) (g : github) (c : Comment.t) :
  List.find is_sticky (issue_comments g) = Some c →
  upsert t g =
  ({| issue_labels := issue_labels g;
      issue_comments :=
        map (set_body (Comment.id c) (marker +:+ Str.NL +:+ t)) (issue_comments g);
      received :=
        received g ++ [UpdateComment (Comment.id c) (marker +:+ Str.NL +:+ t)] |},
   Ok tt).
Proof.
  intros Hfind. unfold upsert.
  rewrite (bind_run _ _ g g (issue_comments g)) by done. rewrite Hfind.
  unfold updateComment. rewrite decide_True; [done |].
  apply find_some in Hfind as [Hin _].
  apply list_elem_of_fmap_2. by apply list_elem_of_In.
Qed.

Lemma upsert_absent (t : string) (g : github) :
  List.find is_sticky (issue_comments g) = None →
  upsert t g =
  if truthy t then
    ({| issue_labels := issue_labels g;
        issue_comments :=
          issue_comments g ++
          [{| Comment.id := fresh_id (issue_comments g);
              Comment.body := marker +:+ Str.NL +:+ t |}];
        received := received g ++ [CreateComment (marker +:+ Str.NL +:+ t)] |},
     Ok tt)
  else (g, Ok tt).
Proof.
  intros Hfind. unfold upsert.
  rewrite (bind_run _ _ g g (issue_comments g)) by done. rewrite Hfind.
  by destruct (truthy t).
Qed.

Lemma upsert_inv (t : string) (g : github) :
  sticky_inv g → sticky_inv (upsert t g).1.
Proof.
  intros [Hids Hcount].
  destruct (List.find is_sticky (issue_comments g)) as [c|] eqn:Hfind.
  - rewrite (upsert_found t g c Hfind). unfold sticky_inv, sticky_count. simpl.
    rewrite ids_set_body. split; [done |].
    rewrite filter_map_length; [done |].
    apply find_some in Hfind as [Hc Hs]. apply list_elem_of_In in Hc.
    intros x Hx. unfold set_body. destruct (decide _) as [Hid|]; [|done].
    rewrite (id_inj_NoDup _ x c Hids Hx Hc Hid), Hs. apply is_sticky_body.
  - rewrite (upsert_absent t g Hfind). destruct (truthy t); [|done].
    unfold sticky_inv, sticky_count. simpl. split.
    + rewrite map_app. simpl. apply NoDup_app. split_and!; [done | |].
      * intros i Hi ->%list_elem_of_singleton.
        apply fresh_id_above in Hi. lia.
      * apply NoDup_singleton.
    + rewrite List.filter_app, length_app.
      rewrite (find_none_filter _ _ Hfind). simpl. lia.
Qed.

Lemma on_pull_request_inv (d : delivery) (g : github) :
  sticky_inv g → sticky_inv (on_pull_request d g).1.
Proof.
  intros Hinv.
  destruct (on_pull_request_run d g) as (g4 & C4 & _ & _ & ->).
  assert (sticky_inv g4) as Hinv4.
  { unfold sticky_inv, sticky_count in *. by rewrite C4. }
  destruct (all _ _ _); [by apply upsert_inv | done].
Qed.

(** C9: starting from an issue with at most one marker comment (comment ids
    being distinct, as the ids GitHub hands out are), any sequence of
    pull_request deliveries leaves at most one marker comment.  Each upsert
    searches the listed comments first: when the search finds a marker
    comment, the first one, that comment's body is overwritten in place and
    nothing is created; a comment is created only when the search finds
    none and the text is not empty. *)
Theorem sticky_comment_unique (ds : list delivery) (g : github) :
  NoDup (map Comment.id (issue_comments g)) →
  sticky_count g ≤ 1 →
  sticky_count (deliver_all ds g) ≤ 1
  ∧ (∀ t c, List.find is_sticky (issue_comments g) = Some c →
       upsert t g =
       ({| issue_labels := issue_labels g;
           issue_comments :=
             map (set_body (Comment.id c) (marker +:+ Str.NL +:+ t))
               (issue_comments g);
           received :=
             received g ++
             [UpdateComment (Comment.id c) (marker +:+ Str.NL +:+ t)] |}, Ok tt))
  ∧ (∀ t, List.find is_sticky (issue_comments g) = None →
       upsert t g =
       if truthy t then
         ({| issue_labels := issue_labels g;
             issue_comments :=
               issue_comments g ++
               [{| Comment.id := fresh_id (issue_comments g);
                   Comment.body := marker +:+ Str.NL +:+ t |}];
             received :=
               received g ++ [CreateComment (marker +:+ Str.NL +:+ t)] |}, Ok tt)
       else (g, Ok tt)).
Proof.
  intros Hids Hcount. split_and!.
  - assert (sticky_inv g) as Hinv by done. clear Hids Hcount.
    revert g Hinv. induction ds as [|d ds IH]; intros g Hinv; simpl.
    + by destruct Hinv.
    + by apply IH, on_pull_request_inv.
  - intros t c. apply upsert_found.
  - intros t. apply upsert_absent.
Qed.

Lemma sticky_comment_unique_witness :
  sticky_count (deliver_all [dependency_only; ssh_plugin; dependency_only] with_sticky) ≤ 1.
Proof.
  refine (proj1 (sticky_comment_unique _ with_sticky _ _)).
  - apply (bool_decide_unpack _). by vm_compute.
  - vm_compute. lia.
Defined.


(** * Further properties of the handlers *)

(** ** The change classifier *)

Lemma classify_step_fold (acc : partition) (fs : list File.t) :
  foldl classify_step acc fs =
  {| pluginFiles := pluginFiles acc ++ List.filter is_plugin fs;
     dependencyFiles := dependencyFiles acc ++ List.filter is_dependency fs;
     otherFiles := otherFiles acc ++ List.filter is_other fs |}.
Proof.
  revert acc. induction fs as [|f fs IH]; intros acc; simpl.
  - rewrite !app_nil_r. by destruct acc.
  - rewrite IH. unfold classify_step, is_dependency, is_other, is_plugin, is_manifest.
    destruct (Str.startsWith "plugins/" (File.filename f)); simpl.
    + by rewrite <- app_assoc.
    + destruct (_ || _); simpl; by rewrite <- ?app_assoc.
Qed.

Lemma three_way_perm {A} (P Q R : A → bool) (l : list A) :
  (∀ x, (P x = true ∧ Q x = false ∧ R x = false)
        ∨ (P x = false ∧ Q x = true ∧ R x = false)
        ∨ (P x = false ∧ Q x = false ∧ R x = true)) →
  List.filter P l ++ List.filter Q l ++ List.filter R l ≡ₚ l.
Proof.
  intros Hx. induction l as [|a l IH]; [done |]. simpl.
  destruct (Hx a) as [(-> & -> & ->) | [(-> & -> & ->) | (-> & -> & ->)]]; simpl.
  - by rewrite IH.
  - rewrite <- Permutation_middle. by rewrite IH.
  - rewrite app_assoc, <- Permutation_middle, <- app_assoc. by rewrite IH.
Qed.

Lemma classify_partition_filters (fs : list File.t) :
  pluginFiles (classify fs) = List.filter is_plugin fs
  ∧ dependencyFiles (classify fs) = List.filter is_dependency fs
  ∧ otherFiles (classify fs) = List.filter is_other fs.
Proof. unfold classify. by rewrite classify_step_fold. Qed.

(** X1: the classifier splits the file list three ways: each list is the
    sub-list, in the order of the file list, of the files of one class; every
    file is of exactly one class; so the three lists together are a
    rearrangement of the file list, nothing lost and nothing twice. *)
Theorem classify_partition (fs : list File.t) :
  pluginFiles (classify fs) = List.filter is_plugin fs
  ∧ dependencyFiles (classify fs) = List.filter is_dependency fs
  ∧ otherFiles (classify fs) = List.filter is_other fs
  ∧ (∀ f, (is_plugin f = true ∧ is_dependency f = false ∧ is_other f = false)
          ∨ (is_plugin f = false ∧ is_dependency f = true ∧ is_other f = false)
          ∨ (is_plugin f = false ∧ is_dependency f = false ∧ is_other f = true))
  ∧ pluginFiles (classify fs) ++ dependencyFiles (classify fs)
      ++ otherFiles (classify fs) ≡ₚ fs.
Proof.
  assert (∀ f, (is_plugin f = true ∧ is_dependency f = false ∧ is_other f = false)
          ∨ (is_plugin f = false ∧ is_dependency f = true ∧ is_other f = false)
          ∨ (is_plugin f = false ∧ is_dependency f = false ∧ is_other f = true))
    as Hone.
  { intros f. unfold is_dependency, is_other.
    destruct (is_plugin f), (is_manifest f); simpl; auto. }
  unfold classify. rewrite classify_step_fold. simpl.
  split_and!; [done.. |]. by apply three_way_perm.
Qed.

(** ** The labels a pull_request delivery leaves *)

Lemma upsert_state (t : string) (g : github) :
  (upsert t g).2 = Ok tt ∧ issue_labels (upsert t g).1 = issue_labels g.
Proof.
  destruct (List.find is_sticky (issue_comments g)) as [c|] eqn:Hfind.
  - by rewrite (upsert_found t g c Hfind).
  - rewrite (upsert_absent t g Hfind). by destruct (truthy t).
Qed.

Lemma on_pull_request_labels (d : delivery) (g : github) :
  issue_labels (on_pull_request d g).1 = labels_after d (issue_labels g).
Proof.
  destruct (on_pull_request_run d g) as (g4 & _ & L4 & _ & ->).
  destruct (all _ _ _); [|done].
  by rewrite (proj2 (upsert_state _ _)).
Qed.

Lemma nonempty_filter {A} (P : A → bool) (l : list A) :
  nonempty (List.filter P l) = true ↔ ∃ x, x ∈ l ∧ P x = true.
Proof.
  unfold nonempty. induction l as [|a l IH]; simpl.
  - split; [done |]. by intros (x & ?%elem_of_nil & _).
  - destruct (P a) eqn:Ea; simpl.
    + split; [|done]. intros _. exists a. split; [apply list_elem_of_here | done].
    + rewrite IH. split.
      * intros (x & Hx & HP). exists x. split; [by apply elem_of_cons; right | done].
      * intros (x & [-> | Hx]%elem_of_cons & HP); [congruence | eauto].
Qed.

Lemma label_names_distinct :
  READY_TO_MERGE ≠ PLUGIN_CHANGE ∧ READY_TO_MERGE ≠ DEPENDENCY_CHANGE
  ∧ READY_TO_MERGE ≠ PACKAGE_CHANGE ∧ PLUGIN_CHANGE ≠ DEPENDENCY_CHANGE
  ∧ PLUGIN_CHANGE ≠ PACKAGE_CHANGE ∧ DEPENDENCY_CHANGE ≠ PACKAGE_CHANGE.
Proof. by split_and!. Qed.

(** X2: whatever the labels were and whether or not the narrative later
    fails, after a pull_request delivery [ready to merge] is absent, each of
    [plugin change], [dependency change] and [package change] is present
    exactly when the file list has a file of that class, and every other
    label is as it was. *)
Theorem pull_request_labels (d : delivery) (g : github) :
  let after := issue_labels (on_pull_request d g).1 in
  (READY_TO_MERGE ∉ after)
  ∧ (PLUGIN_CHANGE ∈ after ↔ ∃ f, f ∈ files d ∧ is_plugin f = true)
  ∧ (DEPENDENCY_CHANGE ∈ after ↔ ∃ f, f ∈ files d ∧ is_dependency f = true)
  ∧ (PACKAGE_CHANGE ∈ after ↔ ∃ f, f ∈ files d ∧ is_other f = true)
  ∧ (∀ L, L ≠ READY_TO_MERGE → L ≠ PLUGIN_CHANGE → L ≠ DEPENDENCY_CHANGE →
          L ≠ PACKAGE_CHANGE → (L ∈ after ↔ L ∈ issue_labels g)).
Proof.
  simpl. rewrite on_pull_request_labels. unfold labels_after.
  destruct (classify_partition_filters (files d)) as (-> & -> & ->).
  rewrite <- !nonempty_filter.
  destruct label_names_distinct as (N1 & N2 & N3 & N4 & N5 & N6).
  generalize READY_TO_MERGE PLUGIN_CHANGE DEPENDENCY_CHANGE PACKAGE_CHANGE
    N1 N2 N3 N4 N5 N6.
  intros R P D K N1' N2' N3' N4' N5' N6'.
  destruct (nonempty (List.filter is_plugin (files d))),
    (nonempty (List.filter is_dependency (files d))),
    (nonempty (List.filter is_other (files d)));
    split_and!; try (intros L ? ? ? ?); set_solver.
Qed.

Lemma settled_values {A B} (F : A → result B) (xs : list A) (ys : list B) :
  Forall2 (λ x y, F x = Ok y) xs ys ↔ settled F xs = (ys, []).
Proof.
  revert ys. induction xs as [|x xs IH]; intros ys; simpl.
  - split.
    + by intros ->%Forall2_nil_inv_l.
    + intros [= <-]. constructor.
  - split.
    + intros (y & ys' & Hy & Hys & ->)%Forall2_cons_inv_l.
      rewrite Hy. apply IH in Hys. by rewrite Hys.
    + destruct (F x) as [y|] eqn:Ex; [|done].
      destruct (settled F xs) as [vs es] eqn:Es. simpl.
      intros [= <- ->]. constructor; [done | by apply IH].
Qed.

Lemma all_Forall2 {A B} (first : nat) (F : A → result B) (xs : list A)
    (ys : list B) :
  all first F xs = Ok ys ↔ Forall2 (λ x y, F x = Ok y) xs ys.
Proof.
  rewrite settled_values. unfold all.
  destruct (settled F xs) as [vs es]. simpl. destruct es; split; congruence.
Qed.

(** X3: a pull_request delivery fails only through the narrative.  When the
    narrative of every plugin file is produced, the paragraphs being in the
    order of the plugin files, the handler succeeds and its effect on the
    comments is that of the upsert of the joined text; when it fails, its
    error is the one of a plugin file's narrative. *)
Theorem pull_request_outcome (d : delivery) (g : github) :
  let p := classify (files d) in
  (∀ paragraphs,
     Forall2 (λ f t, narrative d f = Ok t) (pluginFiles p) paragraphs →
     (on_pull_request d g).2 = Ok tt
     ∧ issue_comments (on_pull_request d g).1 =
       issue_comments (upsert (difftext_of p paragraphs) g).1)
  ∧ (∀ e, (on_pull_request d g).2 = Err e →
       ∃ f, f ∈ pluginFiles p ∧ narrative d f = Err e).
Proof.
  simpl. destruct (on_pull_request_run d g) as (g4 & C4 & _ & _ & ->).
  split.
  - intros ps Hps. apply (all_Forall2 (first_rejection d)) in Hps. rewrite Hps.
    split; [apply upsert_state |].
    destruct (List.find is_sticky (issue_comments g)) as [c|] eqn:Hfind.
    + rewrite (upsert_found _ g c Hfind), (upsert_found _ g4 c); [|by rewrite C4].
      simpl. by rewrite C4.
    + rewrite (upsert_absent _ g Hfind), (upsert_absent _ g4); [|by rewrite C4].
      destruct (truthy _); simpl; by rewrite C4.
  - intros e. destruct (all _ _ _) as [ps|e'] eqn:Ea.
    + by rewrite (proj1 (upsert_state _ _)).
    + simpl. intros [= <-]. by apply all_error in Ea.
Qed.

(** ** The property-file parser *)

Lemma split_nonempty sep s : Str.split sep s ≠ [].
Proof.
  induction s as [|c s IH]; simpl; [done |].
  destruct (Str.split sep s); [done |]. by destruct (Ascii.eqb c sep).
Qed.

Lemma split_app_sep sep a b :
  Str.split sep (a +:+ String sep b) = Str.split sep a ++ Str.split sep b.
Proof.
  induction a as [|c a IH]; simpl.
  - rewrite Ascii.eqb_refl.
    destruct (Str.split sep b) eqn:E; [by apply split_nonempty in E | done].
  - rewrite IH.
    destruct (Str.split sep a) eqn:E; [by apply split_nonempty in E |].
    simpl. by destruct (Ascii.eqb c sep).
Qed.

Lemma split_no_sep sep a :
  Str.has sep a = false → Str.split sep a = [a].
Proof.
  induction a as [|c a IH]; simpl; [done |].
  destruct (Ascii.eqb c sep); [done |]. intros ->%IH. done.
Qed.

Lemma foldl_line_step_union (m : gmap string string) (ls : list string) :
  foldl line_step m ls = foldl line_step ∅ ls ∪ m.
Proof.
  induction ls as [|l ls IH] using rev_ind; simpl.
  - by rewrite (left_id_L ∅ (∪)).
  - rewrite !foldl_app. simpl. unfold line_step at 1 3.
    destruct (line_entry l) as [[k v]|]; simpl; [|done].
    by rewrite IH, insert_union_l.
Qed.

(** X6: a property file read in two parts: what the part after a line feed
    defines overrides what the part before it defines, and every other key of
    the first part is kept. *)
Theorem readKV_append (a b : string) :
  readKV (a +:+ Str.NL +:+ b) = readKV b ∪ readKV a.
Proof.
  rewrite !readKV_writes. unfold Str.NL. simpl.
  rewrite split_app_sep, foldl_app.
  apply foldl_line_step_union.
Qed.

Lemma line_pair_inv line k v :
  line_pair line = Some (k, v) →
  k ≠ "" ∧ Str.has "=" k = false ∧ Str.all Regex.dot v = true.
Proof.
  induction line as [|a l IH]; [done |].
  destruct (decide (a = "="%char)) as [->|Ha].
  - rewrite line_pair_skip. exact IH.
  - rewrite line_pair_key by done.
    destruct (Str.drop_while (Regex.neg "=") l) as [|c rest]; [done |].
    intros [= <- <-]. split_and!; [done | |].
    + simpl. apply Ascii.eqb_neq in Ha as ->.
      pose proof (all_take_while (Regex.neg "=") l) as H.
      rewrite all_neg_has in H. by apply negb_true_iff in H.
    + apply all_take_while.
Qed.

(** X7: every entry of a parsed property file comes from one of its lines,
    its key is not empty and holds no [=], and its value holds no line
    terminator. *)
Theorem readKV_entries (data k v : string) :
  readKV data !! k = Some v →
  (∃ line, line ∈ Str.split Str.LF data ∧ line_pair line = Some (k, v))
  ∧ k ≠ "" ∧ Str.has "=" k = false ∧ Str.all Regex.dot v = true.
Proof.
  rewrite readKV_lookup.
  intros Hin%last_write_elem.
  apply list_elem_of_omap in Hin as (line & Hline & Hp).
  apply line_entry_key in Hp as [Hp _].
  split; [by exists line |]. by apply line_pair_inv in Hp.
Qed.

Lemma readKV_entries_witness :
  readKV ("commit=abc" +:+ Str.NL) !! "commit" = Some "abc"
  ∧ "commit" ≠ "" ∧ Str.has "=" "commit" = false
  ∧ Str.all Regex.dot "abc" = true.
Proof.
  assert (readKV ("commit=abc" +:+ Str.NL) !! "commit" = Some "abc") as H
    by (vm_compute; reflexivity).
  split; [exact H |].
  exact (proj2 (readKV_entries _ _ _ H)).
Defined.

(** ** The narrative of a plugin file *)

Lemma replace_prefix (pat rep s : string) :
  Str.replace pat rep (pat +:+ s) = rep +:+ s.
Proof.
  destruct pat as [|a pat]; [by destruct s |].
  simpl. by rewrite Ascii.eqb_refl, startsWith_app, drop_app.
Qed.

(** X4: a plugin file that was removed is reported without any request: the
    file's path is [plugins/] followed by the plugin name, and the paragraph
    is the removal line for that name, whatever the requests would answer. *)
Theorem narrative_removed (d : delivery) (f : File.t) :
  is_plugin f = true →
  File.status f = "removed" →
  ∃ name, File.filename f = "plugins/" +:+ name
          ∧ narrative d f = Ok ("Removed `" +:+ name +:+ "` plugin").
Proof.
  intros Hp Hs. unfold is_plugin in Hp. apply startsWith_inv in Hp.
  exists (Str.drop (String.length "plugins/") (File.filename f)).
  split; [done |]. unfold narrative.
  rewrite (bool_decide_eq_true_2 _ Hs).
  rewrite Hp at 1. by rewrite replace_prefix.
Qed.

Lemma narrative_removed_witness :
  narrative ssh_plugin (mk_file "plugins/good" "removed")
  = Ok "Removed `good` plugin".
Proof.
  destruct (narrative_removed ssh_plugin (mk_file "plugins/good" "removed")
              eq_refl eq_refl) as (name & Hn & ->).
  injection Hn as <-. reflexivity.
Defined.

(** X5: a file that was not removed gets a paragraph only when its contents
    could be requested, the parsed contents define a [repository], and that
    value was accepted by [extractURL], so that it contains
    [https://github.com/<user>/<repo>] for the user and repo the paragraph
    is written from; this holds whatever the status, an unknown one too. *)
Theorem narrative_needs_repository (d : delivery) (f : File.t) (t : string) :
  File.status f ≠ "removed" →
  narrative d f = Ok t →
  ∃ res url ref,
    request d (File.raw_url f) = Ok res
    ∧ readKV res !! "repository" = Some url
    ∧ extractURL url = Ok ref
    ∧ Str.includes
        ("https://github.com/" +:+ user ref +:+ "/" +:+ repo ref) url = true.
Proof.
  intros Hs. unfold narrative. rewrite (bool_decide_eq_false_2 _ Hs).
  destruct (request d (File.raw_url f)) as [res|] eqn:Er; simpl; [|done].
  destruct (readKV res !! "repository") as [url|] eqn:Ek; simpl.
  - destruct (extractURL url) as [ref|] eqn:Ee; simpl; [|done].
    intros _. exists res, url, ref. split_and!; [done.. |].
    by apply extractURL_sound in Ee as (_ & _ & _ & _ & ?).
  - change (extractURL "undefined") with
      (Err (Thrown (url_error "undefined")) : result RepoRef). done.
Qed.

Lemma narrative_needs_repository_witness :
  ∃ res url ref,
    request added_foo (File.raw_url (mk_file "plugins/foo.plugin" "added")) = Ok res
    ∧ readKV res !! "repository" = Some url
    ∧ extractURL url = Ok ref
    ∧ Str.includes
        ("https://github.com/" +:+ user ref +:+ "/" +:+ repo ref) url = true.
Proof.
  refine (narrative_needs_repository added_foo
            (mk_file "plugins/foo.plugin" "added")
            "New plugin `foo.plugin`: https://github.com/alice/foo/tree/abc123"
            _ _).
  - discriminate.
  - vm_compute. reflexivity.
Defined.

(** X8: a plugin file, not removed, whose contents define no [repository]
    makes the narrative throw the clone-URL error about [undefined], and the
    whole delivery ends in an error with the comments as they were. *)
Theorem missing_repository_fails (d : delivery) (g : github) (f : File.t)
    (res : string) :
  f ∈ files d → is_plugin f = true → File.status f ≠ "removed" →
  request d (File.raw_url f) = Ok res →
  readKV res !! "repository" = None →
  narrative d f = Err (Thrown (url_error "undefined"))
  ∧ ∃ e, (on_pull_request d g).2 = Err e
         ∧ issue_comments (on_pull_request d g).1 = issue_comments g.
Proof.
  intros Hin Hp Hs Hr Hk.
  assert (narrative d f = Err (Thrown (url_error "undefined"))) as Hn.
  { unfold narrative. rewrite (bool_decide_eq_false_2 _ Hs), Hr. simpl.
    rewrite Hk. reflexivity. }
  split; [exact Hn |].
  destruct (on_pull_request_run d g) as (g4 & C4 & _ & _ & ->).
  assert (f ∈ pluginFiles (classify (files d))) as Hf.
  { rewrite (proj1 (classify_partition_filters (files d))).
    apply list_elem_of_In, filter_In. split; [by apply list_elem_of_In | done]. }
  destruct (all_fails (first_rejection d) _ _ _ _ Hf Hn)
    as (e & f' & -> & _ & _).
  by exists e.
Qed.

(** X9: for an added plugin whose [repository] is the clone URL
    [https://github.com/<user>/<repo>.git] with [<user>] not empty and free
    of [/] and [<repo>] not empty and free of [.], the paragraph links the
    tree of that repository at the [commit] of the file ([undefined] when
    the file defines none). *)
Theorem narrative_added (d : delivery) (f : File.t) (res u r : string) :
  File.status f = "added" →
  request d (File.raw_url f) = Ok res →
  readKV res !! "repository" = Some (clone_url u r) →
  u ≠ "" → Str.has "/" u = false → r ≠ "" → Str.has "." r = false →
  narrative d f =
  Ok ("New plugin `" +:+ Str.replace "plugins/" "" (File.filename f) +:+
      "`: https://github.com/" +:+ u +:+ "/" +:+ r +:+ "/tree/" +:+
      js_string (readKV res !! "commit")).
Proof.
  intros Hs Hr Hk Hu Hu' Hrr Hr'. unfold narrative.
  rewrite Hs, Hr. simpl. rewrite Hk. simpl.
  pose proof (extractURL_accepts u r "" Hu Hu' Hrr Hr') as He.
  rewrite append_empty_r in He. by rewrite He.
Qed.

Lemma narrative_added_witness :
  narrative added_foo (mk_file "plugins/foo.plugin" "added")
  = Ok "New plugin `foo.plugin`: https://github.com/alice/foo/tree/abc123".
Proof.
  rewrite (narrative_added added_foo _
             ("repository=https://github.com/alice/foo.git" +:+ Str.NL +:+
              "commit=abc123" +:+ Str.NL) "alice" "foo").
  - vm_compute. reflexivity.
  - reflexivity.
  - reflexivity.
  - vm_compute. reflexivity.
  - discriminate.
  - reflexivity.
  - discriminate.
  - reflexivity.
Defined.

Lemma missing_repository_fails_witness :
  narrative no_repository (mk_file "plugins/foo" "modified")
  = Err (Thrown (url_error "undefined")).
Proof.
  refine (proj1 (missing_repository_fails no_repository labelled_plugin
                   (mk_file "plugins/foo" "modified")
                   ("commit=abc123" +:+ Str.NL) _ _ _ _ _)).
  - apply list_elem_of_here.
  - reflexivity.
  - discriminate.
  - reflexivity.
  - vm_compute. reflexivity.
Defined.

(** X10: for a modified plugin whose new file and whose file on master both
    give as [repository] a clone URL [https://github.com/<user>/<repo>.git]
    with [<user>] not empty and free of [/] and [<repo>] not empty and free
    of [.], the paragraph compares, in the repository the file on master
    names, the commit on master with the new commit taken from the fork of
    the new file's user; the new repository's name is not used. *)
Theorem narrative_modified (d : delivery) (f : File.t)
    (res res' u r u' r' : string) :
  File.status f = "modified" →
  request d (File.raw_url f) = Ok res →
  request d (master_url d (Str.replace "plugins/" "" (File.filename f))) = Ok res' →
  readKV res !! "repository" = Some (clone_url u r) →
  readKV res' !! "repository" = Some (clone_url u' r') →
  u ≠ "" → Str.has "/" u = false → r ≠ "" → Str.has "." r = false →
  u' ≠ "" → Str.has "/" u' = false → r' ≠ "" → Str.has "." r' = false →
  narrative d f =
  Ok ("`" +:+ Str.replace "plugins/" "" (File.filename f) +:+ "`: [" +:+
      js_string (readKV res' !! "commit") +:+ "..." +:+
      js_string (readKV res !! "commit") +:+ "](https://github.com/" +:+
      u' +:+ "/" +:+ r' +:+ "/compare/" +:+
      js_string (readKV res' !! "commit") +:+ "..." +:+ u +:+ ":" +:+
      js_string (readKV res !! "commit") +:+ ")").
Proof.
  intros Hs Hr Hr' Hk Hk' Hu1 Hu2 Hr1 Hr2 Hu1' Hu2' Hr1' Hr2'. unfold narrative.
  rewrite Hs, Hr. simpl. rewrite Hk. simpl.
  pose proof (extractURL_accepts u r "" Hu1 Hu2 Hr1 Hr2) as He.
  pose proof (extractURL_accepts u' r' "" Hu1' Hu2' Hr1' Hr2') as He'.
  rewrite append_empty_r in He, He'. rewrite He. simpl.
  rewrite Hr'. simpl. rewrite Hk'. simpl. rewrite He'. simpl.
  unfold compare_link. simpl. reflexivity.
Qed.

Lemma narrative_modified_witness :
  narrative modified_example (mk_file "plugins/example" "modified")
  = Ok "`example`: [111...222](https://github.com/bob/bar/compare/111...alice:222)".
Proof.
  rewrite (narrative_modified modified_example _
             ("repository=https://github.com/alice/foo.git" +:+ Str.NL +:+
              "commit=222" +:+ Str.NL)
             ("repository=https://github.com/bob/bar.git" +:+ Str.NL +:+
              "commit=111" +:+ Str.NL) "alice" "foo" "bob" "bar");
    first [ by vm_compute | discriminate | reflexivity ].
Defined.

(** ** The upsert on the comments of the issue *)

Lemma upsert_comments (t : string) (g : github) :
  issue_comments (upsert t g).1 = upserted t (issue_comments g).
Proof.
  unfold upserted.
  destruct (List.find is_sticky (issue_comments g)) as [c|] eqn:Hfind.
  - by rewrite (upsert_found t g c Hfind).
  - rewrite (upsert_absent t g Hfind). by destruct (truthy t).
Qed.

Lemma set_body_other i b (c : Comment.t) :
  Comment.id c ≠ i → set_body i b c = c.
Proof. intros H. unfold set_body. by rewrite decide_False. Qed.

Lemma set_body_same i b (c : Comment.t) :
  Comment.id c = i → set_body i b c = {| Comment.id := i; Comment.body := b |}.
Proof. intros H. unfold set_body. by rewrite decide_True. Qed.

Lemma set_body_twice i b (c : Comment.t) :
  set_body i b (set_body i b c) = set_body i b c.
Proof.
  destruct (decide (Comment.id c = i)) as [H|H].
  - rewrite (set_body_same i b c H). by apply set_body_same.
  - by rewrite !(set_body_other i b c H).
Qed.

Lemma sticky_preserved (cs : list Comment.t) (c : Comment.t) (t : string) :
  NoDup (map Comment.id cs) → List.find is_sticky cs = Some c →
  ∀ x, x ∈ cs → is_sticky (set_body (Comment.id c) (marker +:+ t) x) = is_sticky x.
Proof.
  intros Hids Hfind x Hx. apply find_some in Hfind as [Hc Hs].
  apply list_elem_of_In in Hc.
  destruct (decide (Comment.id x = Comment.id c)) as [Hid|Hid].
  - rewrite (id_inj_NoDup _ x c Hids Hx Hc Hid), Hs.
    rewrite set_body_same by done. apply is_sticky_body.
  - by rewrite set_body_other.
Qed.

Lemma find_map {A} (P : A → bool) (F : A → A) (l : list A) :
  (∀ x, x ∈ l → P (F x) = P x) →
  List.find P (map F l) = F <$> List.find P l.
Proof.
  induction l as [|a l IH]; [done |]. intros H. simpl.
  rewrite (H a) by apply list_elem_of_here.
  destruct (P a); [done |]. apply IH. intros x Hx. apply H.
  by apply elem_of_cons; right.
Qed.

Lemma find_app_none {A} (P : A → bool) (l : list A) (a : A) :
  List.find P l = None → P a = true → List.find P (l ++ [a]) = Some a.
Proof.
  induction l as [|b l IH]; simpl.
  - by intros _ ->.
  - destruct (P b); [done | exact IH].
Qed.

Lemma map_set_body_fresh (cs : list Comment.t) (b : string) :
  map (set_body (fresh_id cs) b) cs = cs.
Proof.
  rewrite <- (map_id cs) at 3. apply map_ext_in. intros x Hx.
  apply set_body_other. intros Hid.
  assert (Comment.id x ∈ map Comment.id cs) as Hin
    by by apply list_elem_of_fmap_2, list_elem_of_In.
  apply fresh_id_above in Hin. lia.
Qed.

Lemma upserted_twice (t : string) (cs : list Comment.t) :
  NoDup (map Comment.id cs) → upserted t (upserted t cs) = upserted t cs.
Proof.
  intros Hids. unfold upserted at 2 3.
  destruct (List.find is_sticky cs) as [c|] eqn:Hfind.
  - unfold upserted.
    rewrite find_map by (by apply sticky_preserved).
    rewrite Hfind. simpl. rewrite set_body_id, map_map.
    apply map_ext. intros x. apply set_body_twice.
  - destruct (truthy t) eqn:Ht.
    + unfold upserted. rewrite (find_app_none _ _ _ Hfind) by apply is_sticky_body.
      simpl. rewrite map_app. simpl.
      rewrite map_set_body_fresh. by rewrite set_body_same.
    + unfold upserted. by rewrite Hfind, Ht.
Qed.

(** X11: an upsert always succeeds and changes no label.  With distinct
    comment ids, the ids of the listed comments stay as they are, in order,
    with at most one new id at the end, and every listed comment other than
    the marker comment the search finds is still there unchanged. *)
Theorem upsert_frame (t : string) (g : github) :
  NoDup (map Comment.id (issue_comments g)) →
  (upsert t g).2 = Ok tt
  ∧ issue_labels (upsert t g).1 = issue_labels g
  ∧ (map Comment.id (issue_comments (upsert t g).1)
       = map Comment.id (issue_comments g)
     ∨ map Comment.id (issue_comments (upsert t g).1)
       = map Comment.id (issue_comments g) ++ [fresh_id (issue_comments g)])
  ∧ (∀ c, c ∈ issue_comments g →
          List.find is_sticky (issue_comments g) ≠ Some c →
          c ∈ issue_comments (upsert t g).1).
Proof.
  intros Hids. destruct (upsert_state t g) as [Hok Hl].
  split_and!; [done | done | |]; rewrite upsert_comments; unfold upserted.
  - destruct (List.find is_sticky (issue_comments g)) as [c|].
    + left. apply ids_set_body.
    + destruct (truthy t); [right | by left]. by rewrite map_app.
  - intros c Hc Hne.
    destruct (List.find is_sticky (issue_comments g)) as [c0|] eqn:Hfind.
    + apply list_elem_of_fmap. exists c. split; [|done].
      symmetry. apply set_body_other. intros Hid. apply Hne. f_equal.
      apply find_some in Hfind as [Hc0 _]. apply list_elem_of_In in Hc0.
      symmetry. by apply (id_inj_NoDup (issue_comments g)).
    + destruct (truthy t); [|done]. apply elem_of_app. by left.
Qed.

Lemma upsert_frame_witness :
  {| Comment.id := 7; Comment.body := "first!" |}
  ∈ issue_comments (upsert "new text" with_sticky).1.
Proof.
  refine (proj2 (proj2 (proj2 (upsert_frame "new text" with_sticky _))) _ _ _).
  - apply (bool_decide_unpack _). vm_compute. reflexivity.
  - apply list_elem_of_here.
  - vm_compute. discriminate.
Defined.

(** X12: with distinct comment ids, upserting the same text again leaves the
    comments the first upsert produced; and once a text was upserted that is
    not empty, or a marker comment was there, the search finds a marker
    comment whose body is the marker line followed by the text. *)
Theorem upsert_idempotent (t : string) (g : github) :
  NoDup (map Comment.id (issue_comments g)) →
  issue_comments (upsert t (upsert t g).1).1 = issue_comments (upsert t g).1
  ∧ (truthy t = true ∨ is_Some (List.find is_sticky (issue_comments g)) →
     ∃ c, List.find is_sticky (issue_comments (upsert t g).1) = Some c
          ∧ Comment.body c = marker +:+ Str.NL +:+ t).
Proof.
  intros Hids. split.
  - rewrite !upsert_comments. by apply upserted_twice.
  - rewrite upsert_comments. unfold upserted. intros Hor.
    destruct (List.find is_sticky (issue_comments g)) as [c|] eqn:Hfind.
    + rewrite find_map by (by apply sticky_preserved). rewrite Hfind. simpl.
      eexists. split; [done |]. by rewrite set_body_same.
    + destruct Hor as [-> | [? [=]]].
      rewrite (find_app_none _ _ _ Hfind) by apply is_sticky_body.
      eexists. by split.
Qed.

Lemma upsert_idempotent_witness :
  issue_comments (upsert "new text" (upsert "new text" with_sticky).1).1
  = issue_comments (upsert "new text" with_sticky).1.
Proof.
  refine (proj1 (upsert_idempotent "new text" with_sticky _)).
  apply (bool_decide_unpack _). vm_compute. reflexivity.
Defined.

Lemma labels_after_twice (d : delivery) (S : gset string) :
  labels_after d (labels_after d S) = labels_after d S.
Proof.
  unfold labels_after.
  destruct label_names_distinct as (N1 & N2 & N3 & N4 & N5 & N6).
  generalize READY_TO_MERGE PLUGIN_CHANGE DEPENDENCY_CHANGE PACKAGE_CHANGE
    N1 N2 N3 N4 N5 N6.
  intros R P D K N1' N2' N3' N4' N5' N6'.
  destruct (nonempty (pluginFiles (classify (files d)))),
    (nonempty (dependencyFiles (classify (files d)))),
    (nonempty (otherFiles (classify (files d)))); set_solver.
Qed.

(** X13: a pull_request delivery handled a second time, nothing else having
    changed, leaves the labels and the comments the first handling produced
    and ends as the first did (comment ids being distinct). *)
Theorem redelivery_idempotent (d : delivery) (g : github) :
  NoDup (map Comment.id (issue_comments g)) →
  issue_labels (on_pull_request d (on_pull_request d g).1).1
    = issue_labels (on_pull_request d g).1
  ∧ issue_comments (on_pull_request d (on_pull_request d g).1).1
    = issue_comments (on_pull_request d g).1
  ∧ (on_pull_request d (on_pull_request d g).1).2 = (on_pull_request d g).2.
Proof.
  intros Hids. split.
  { rewrite !on_pull_request_labels. apply labels_after_twice. }
  destruct (on_pull_request_run d g) as (g4 & C4 & _ & _ & E1).
  destruct (on_pull_request_run d (on_pull_request d g).1)
    as (g4' & C4' & _ & _ & E2).
  rewrite E2. rewrite E1 in C4' |- *.
  destruct (all (first_rejection d) (narrative d)
              (pluginFiles (classify (files d)))) as [ps|e].
  - rewrite !upsert_comments, C4'. rewrite upsert_comments, C4.
    split; [by apply upserted_twice |].
    by rewrite !(proj1 (upsert_state _ _)).
  - simpl in *. by rewrite C4'.
Qed.

Lemma redelivery_idempotent_witness :
  issue_comments (on_pull_request added_foo (on_pull_request added_foo with_sticky).1).1
  = issue_comments (on_pull_request added_foo with_sticky).1.
Proof.
  refine (proj1 (proj2 (redelivery_idempotent added_foo with_sticky _))).
  apply (bool_decide_unpack _). vm_compute. reflexivity.
Defined.

(** ** The review handler as a whole *)

Lemma review_noop (d : delivery) (g : github) :
  reviewStates (list_to_set (members d)) (reviews d) = ∅ →
  on_review_submitted d g = (g, Ok tt).
Proof.
  intros Hm. unfold on_review_submitted. rewrite listLabels_bind.
  destruct (negb (bool_decide (PLUGIN_CHANGE ∈ _))); [done |].
  destruct (length (reviews d) <=? 0); [done |].
  by rewrite Hm, unapproved_empty, dom_empty_L, elements_empty.
Qed.

Lemma review_unlabelled (d : delivery) (g : github) :
  PLUGIN_CHANGE ∉ issue_labels g → on_review_submitted d g = (g, Ok tt).
Proof.
  intros Hp. unfold on_review_submitted.
  rewrite listLabels_bind, labels_snapshot.
  by rewrite (bool_decide_eq_false_2 _ Hp).
Qed.

Lemma filter_nil_forall {A} (P : A → bool) (l : list A) :
  (∀ x, x ∈ l → P x = false) → List.filter P l = [].
Proof.
  induction l as [|a l IH]; [done |]. intros H. simpl.
  rewrite (H a) by apply list_elem_of_here.
  apply IH. intros x Hx. apply H. by apply elem_of_cons; right.
Qed.

Lemma unapproved_nil (m : gmap string bool) :
  (∀ l, m !! l ≠ Some false) → unapproved m = [].
Proof.
  intros Hm. unfold unapproved. apply filter_nil_forall. intros k Hk.
  apply elem_of_elements, elem_of_dom in Hk as [b Hb]. rewrite Hb. simpl.
  destruct b; [done |]. by apply Hm in Hb.
Qed.

Lemma reviewStates_nil members : reviewStates members [] = ∅.
Proof. done. Qed.

Lemma review_rejected (d : delivery) (g : github) (l : string) :
  PLUGIN_CHANGE ∈ issue_labels g →
  reviewStates (list_to_set (members d)) (reviews d) !! l = Some false →
  on_review_submitted d g =
  if bool_decide (READY_TO_MERGE ∈ issue_labels g)
  then ({| issue_labels := issue_labels g ∖ {[READY_TO_MERGE]};
           issue_comments := issue_comments g;
           received := received g ++ [RemoveLabel READY_TO_MERGE] |}, Ok tt)
  else (g, Ok tt).
Proof.
  intros Hp Hl. unfold on_review_submitted.
  rewrite listLabels_bind, labels_snapshot.
  rewrite (bool_decide_eq_true_2 _ Hp). simpl.
  destruct (reviews d) as [|r rs] eqn:Er.
  { rewrite reviewStates_nil in Hl. by rewrite lookup_empty in Hl. }
  simpl. apply unapproved_elem in Hl.
  destruct (unapproved _) as [|u us]; [by apply elem_of_nil in Hl |]. simpl.
  case_bool_decide as Hr; [|done].
  unfold removeLabel. by rewrite decide_True.
Qed.

Lemma review_approved (d : delivery) (g : github) :
  PLUGIN_CHANGE ∈ issue_labels g →
  reviewStates (list_to_set (members d)) (reviews d) ≠ ∅ →
  (∀ l, reviewStates (list_to_set (members d)) (reviews d) !! l ≠ Some false) →
  on_review_submitted d g =
  if bool_decide (READY_TO_MERGE ∈ issue_labels g)
  then (g, Ok tt)
  else ({| issue_labels := issue_labels g ∪ {[READY_TO_MERGE]};
           issue_comments := issue_comments g;
           received := received g ++ [AddLabels [READY_TO_MERGE]] |}, Ok tt).
Proof.
  intros Hp Hne Hall. unfold on_review_submitted.
  rewrite listLabels_bind, labels_snapshot.
  rewrite (bool_decide_eq_true_2 _ Hp). simpl.
  destruct (reviews d) as [|r rs] eqn:Er.
  { by rewrite reviewStates_nil in Hne. }
  simpl. rewrite (unapproved_nil _ Hall). simpl.
  destruct (elements (dom _)) as [|k ks] eqn:Ek.
  { apply elements_empty_inv, leibniz_equiv, dom_empty_inv_L in Ek. done. }
  simpl. case_bool_decide as Hr; [done |]. simpl.
  unfold addLabels. simpl. by rewrite union_empty_r_L.
Qed.

(** X14: what a review delivery does, in full.  Without [plugin change]
    nothing is sent.  With it: if some login's entry in the decision map is
    a rejection, the label set loses [ready to merge]; if the map is not
    empty and holds no rejection, the label set gains [ready to merge].  In
    every case the handler succeeds and no comment is touched. *)
Theorem review_outcome (d : delivery) (g : github) :
  let m := reviewStates (list_to_set (members d)) (reviews d) in
  (on_review_submitted d g).2 = Ok tt
  ∧ issue_comments (on_review_submitted d g).1 = issue_comments g
  ∧ (PLUGIN_CHANGE ∉ issue_labels g → on_review_submitted d g = (g, Ok tt))
  ∧ (PLUGIN_CHANGE ∈ issue_labels g → (∃ l, m !! l = Some false) →
     issue_labels (on_review_submitted d g).1
     = issue_labels g ∖ {[READY_TO_MERGE]})
  ∧ (PLUGIN_CHANGE ∈ issue_labels g → m ≠ ∅ → (∀ l, m !! l ≠ Some false) →
     issue_labels (on_review_submitted d g).1
     = issue_labels g ∪ {[READY_TO_MERGE]}).
Proof.
  simpl.
  assert (PLUGIN_CHANGE ∈ issue_labels g → (∃ l,
            reviewStates (list_to_set (members d)) (reviews d) !! l = Some false) →
          (on_review_submitted d g).2 = Ok tt
          ∧ issue_comments (on_review_submitted d g).1 = issue_comments g
          ∧ issue_labels (on_review_submitted d g).1
            = issue_labels g ∖ {[READY_TO_MERGE]}) as Hrej.
  { intros Hp [l Hl]. rewrite (review_rejected d g l Hp Hl).
    case_bool_decide; simpl; [done |]. split_and!; [done.. |]. set_solver. }
  assert (PLUGIN_CHANGE ∈ issue_labels g →
          reviewStates (list_to_set (members d)) (reviews d) ≠ ∅ →
          (∀ l, reviewStates (list_to_set (members d)) (reviews d) !! l ≠ Some false) →
          (on_review_submitted d g).2 = Ok tt
          ∧ issue_comments (on_review_submitted d g).1 = issue_comments g
          ∧ issue_labels (on_review_submitted d g).1
            = issue_labels g ∪ {[READY_TO_MERGE]}) as Happ.
  { intros Hp Hne Hall. rewrite (review_approved d g Hp Hne Hall).
    case_bool_decide; simpl; [|done]. split_and!; [done.. |]. set_solver. }
  assert ((on_review_submitted d g).2 = Ok tt
          ∧ issue_comments (on_review_submitted d g).1 = issue_comments g) as [H1 H2].
  { destruct (decide (PLUGIN_CHANGE ∈ issue_labels g)) as [Hp|Hp];
      [|by rewrite review_unlabelled].
    destruct (decide (reviewStates (list_to_set (members d)) (reviews d) = ∅))
      as [He|He]; [by rewrite review_noop |].
    destruct (unapproved (reviewStates (list_to_set (members d)) (reviews d)))
      as [|u us] eqn:Eu.
    - destruct Happ as (? & ? & _); [done | done | | done].
      intros l Hl. apply unapproved_elem in Hl. rewrite Eu in Hl.
      by apply elem_of_nil in Hl.
    - destruct Hrej as (? & ? & _); [done | | done].
      assert (u ∈ unapproved (reviewStates (list_to_set (members d)) (reviews d)))
        as Hu by (rewrite Eu; apply list_elem_of_here).
      unfold unapproved in Hu. apply list_elem_of_In, filter_In in Hu as [Hd Hb].
      apply list_elem_of_In, elem_of_elements, elem_of_dom in Hd as [b Hb'].
      exists u. rewrite Hb' in Hb |- *. by destruct b. }
  split_and!; [done | done | apply review_unlabelled | |].
  - intros Hp Hex. by destruct (Hrej Hp Hex) as (_ & _ & ?).
  - intros Hp Hne Hall. by destruct (Happ Hp Hne Hall) as (_ & _ & ?).
Qed.

(** Scenario 3 of the specification. *)
Lemma review_outcome_witness :
  issue_labels
    (on_review_submitted
       (reviewed [mk_review "alice" "APPROVED" ""; mk_review "bob" "COMMENTED" "needs work"])
       labelled_plugin).1
  = issue_labels labelled_plugin ∪ {[READY_TO_MERGE]}.
Proof.
  refine (proj2 (proj2 (proj2 (proj2 (review_outcome _ labelled_plugin)))) _ _ _).
  - set_solver.
  - intros H. apply (f_equal (λ m : gmap string bool, m !! "alice")) in H.
    vm_compute in H. discriminate H.
  - intros l Hl. apply unapproved_elem in Hl. vm_compute in Hl.
    by apply elem_of_nil in Hl.
Defined.

(** X15: reviews by logins outside the approver team count for nothing: two
    deliveries with the same team whose reviews by team members are the
    same, in the same order, are handled alike, also when one of them has no
    review at all. *)
Theorem review_nonmembers_ignored (d d' : delivery) (g : github) :
  members d = members d' →
  List.filter (λ r, bool_decide (Review.login r ∈ (list_to_set (members d) : gset string)))
    (reviews d)
  = List.filter (λ r, bool_decide (Review.login r ∈ (list_to_set (members d) : gset string)))
      (reviews d') →
  on_review_submitted d g = on_review_submitted d' g.
Proof.
  intros Hm Hf.
  assert (reviewStates (list_to_set (members d)) (reviews d)
          = reviewStates (list_to_set (members d')) (reviews d')) as Hs.
  { unfold reviewStates. by rewrite <- Hm, Hf. }
  destruct (decide (reviewStates (list_to_set (members d)) (reviews d) = ∅))
    as [He|He].
  { rewrite (review_noop d g He). rewrite Hs in He. by rewrite (review_noop d' g He). }
  assert (reviews d ≠ []) as Hr.
  { intros Hr. apply He. by rewrite Hr. }
  assert (reviews d' ≠ []) as Hr'.
  { intros Hr'. apply He. rewrite Hs. by rewrite Hr'. }
  unfold on_review_submitted. rewrite !listLabels_bind, Hs.
  destruct (reviews d); [done |]. destruct (reviews d'); [done |]. done.
Qed.

Lemma review_nonmembers_ignored_witness :
  on_review_submitted
    (reviewed [mk_review "mallory" "CHANGES_REQUESTED" ""; mk_review "alice" "APPROVED" ""])
    labelled_plugin
  = on_review_submitted (reviewed [mk_review "alice" "APPROVED" ""]) labelled_plugin.
Proof.
  apply review_nonmembers_ignored.
  - reflexivity.
  - vm_compute. reflexivity.
Defined.

(** X16: a review delivery handled a second time, nothing else having
    changed, sends nothing and leaves the remote state as the first handling
    left it. *)
Theorem review_idempotent (d : delivery) (g : github) :
  on_review_submitted d (on_review_submitted d g).1
  = ((on_review_submitted d g).1, Ok tt).
Proof.
  destruct (decide (PLUGIN_CHANGE ∈ issue_labels g)) as [Hp|Hp];
    [|rewrite (review_unlabelled d g Hp); simpl; by rewrite (review_unlabelled d g Hp)].
  destruct (decide (reviewStates (list_to_set (members d)) (reviews d) = ∅))
    as [He|He]; [by rewrite !(review_noop d _ He) |].
  destruct label_names_distinct as (N1 & _).
  destruct (unapproved (reviewStates (list_to_set (members d)) (reviews d)))
    as [|u us] eqn:Eu.
  - assert (∀ l, reviewStates (list_to_set (members d)) (reviews d) !! l ≠ Some false)
      as Hall.
    { intros l Hl. apply unapproved_elem in Hl. rewrite Eu in Hl.
      by apply elem_of_nil in Hl. }
    rewrite (review_approved d g Hp He Hall).
    case_bool_decide as Hr; simpl.
    + rewrite (review_approved d g Hp He Hall). by rewrite bool_decide_eq_true_2.
    + rewrite review_approved; [| simpl; set_solver | done | done].
      simpl. rewrite bool_decide_eq_true_2; [done | set_solver].
  - assert (u ∈ unapproved (reviewStates (list_to_set (members d)) (reviews d)))
      as Hu by (rewrite Eu; apply list_elem_of_here).
    unfold unapproved in Hu. apply list_elem_of_In, filter_In in Hu as [Hd Hb].
    apply list_elem_of_In, elem_of_elements, elem_of_dom in Hd as [b Hb'].
    assert (reviewStates (list_to_set (members d)) (reviews d) !! u = Some false)
      as Hl.
    { rewrite Hb' in Hb |- *. by destruct b. }
    rewrite (review_rejected d g u Hp Hl).
    case_bool_decide as Hr; simpl.
    + rewrite (review_rejected d _ u); [| simpl; set_solver | done].
      simpl. rewrite bool_decide_eq_false_2; [done | set_solver].
    + rewrite (review_rejected d g u Hp Hl). by rewrite bool_decide_eq_false_2.
Qed.

(** X17: the two handlers together: whatever a review delivery decided, the
    next pull_request delivery clears [ready to merge] again. *)
Theorem content_change_clears_readiness (d d' : delivery) (g : github) :
  READY_TO_MERGE ∉
    issue_labels (on_pull_request d' (on_review_submitted d g).1).1.
Proof.
  rewrite on_pull_request_labels. unfold labels_after.
  destruct label_names_distinct as (N1 & N2 & N3 & N4 & N5 & N6).
  generalize READY_TO_MERGE PLUGIN_CHANGE DEPENDENCY_CHANGE PACKAGE_CHANGE
    N1 N2 N3 N4 N5 N6.
  intros R P D K N1' N2' N3' N4' N5' N6'.
  destruct (nonempty (pluginFiles (classify (files d')))),
    (nonempty (dependencyFiles (classify (files d')))),
    (nonempty (otherFiles (classify (files d')))); set_solver.
Qed.

(** ** extractURL and the clone URL of its result *)

(** X18: whatever string [extractURL] accepted, the clone URL written from
    the user and the repo it returned is accepted too and gives the same
    pair back. *)
Theorem extractURL_round_trip (s : string) (ref : RepoRef) :
  extractURL s = Ok ref →
  extractURL (clone_url (user ref) (repo ref)) = Ok ref.
Proof.
  intros (Hu & Hu' & Hr & Hr' & _)%extractURL_sound.
  pose proof (extractURL_accepts (user ref) (repo ref) "" Hu Hu' Hr Hr') as He.
  rewrite append_empty_r in He. rewrite He. by destruct ref.
Qed.

Lemma extractURL_round_trip_witness :
  extractURL (clone_url "a" "b") = Ok {| user := "a"; repo := "b" |}.
Proof.
  refine (extractURL_round_trip "see https://github.com/a/bXgit"
            {| user := "a"; repo := "b" |} _).
  reflexivity.
Defined.
